(** * Hero-image upload route and QR-code manager

    A shallow embedding of [src/app/api/hero-images/upload/route.ts]: the
    server-side [POST] handler of the hero-image upload route and the handlers
    of the client-side [QRCodeManager] component, together with the part of
    the hosted backend (object storage and row tables) they talk to.

    Conventions of the embedding.
    - A JavaScript string is the [string] of its UTF-8 bytes.  White space
      is the language's: the six one-byte characters and the Unicode spaces,
      no-break space, line and paragraph separators and byte-order mark in
      their two- and three-byte encodings.  Case mapping is that of A-Z,
      other characters pass through unchanged.
    - [Date.now()] and a file size are integers below 2^53 and are [Z].
      The result of [parseInt] is a [JS.Number]: an integer is rounded to
      the nearest double-precision number (ties to even), to an infinity
      beyond the range, and [NaN] and [-0] are values of their own.
    - An [async] handler is a state transformer that may complete normally or
      by a thrown exception; every [await] on the backend asks the
      environment for the fate of that request. *)

From Stdlib Require Import List String Ascii ZArith Bool Lia DecimalString DecimalPos.
From Stdlib Require Import Permutation Sorted.
From Stdlib Require HexadecimalString SpecFloat.
Import ListNotations.
Open Scope string_scope.

(* ================================================================== *)
(** ** JavaScript built-ins used by the source *)

Module JS.

(** [String.prototype.split] with a one-character separator.  The result
    always has at least one segment. *)
Fixpoint split (sep : ascii) (s : string) : list string :=
  match s with
  | EmptyString => [EmptyString]
  | String c s' =>
      if Ascii.eqb c sep then EmptyString :: split sep s'
      else match split sep s' with
           | seg :: segs => String c seg :: segs
           | [] => [String c EmptyString]
           end
  end.

(** [Array.prototype.pop]: the last element, [undefined] on an empty array. *)
Fixpoint pop {A : Type} (l : list A) : option A :=
  match l with
  | [] => None
  | [x] => Some x
  | _ :: l' => pop l'
  end.

Definition lower_char (c : ascii) : ascii :=
  let n := N_of_ascii c in
  if ((65 <=? n) && (n <=? 90))%N then ascii_of_N (n + 32) else c.

(** [String.prototype.toLowerCase]. *)
Fixpoint toLowerCase (s : string) : string :=
  match s with
  | EmptyString => EmptyString
  | String c s' => String (lower_char c) (toLowerCase s')
  end.

(** White space and line terminators of the language, as they stand in a
    string held in UTF-8.  One byte: TAB, LF, VT, FF, CR and SPACE. *)
Definition is_white_space (c : ascii) : bool :=
  let n := N_of_ascii c in
  (((9 <=? n) && (n <=? 13)) || (n =? 32))%N.

(** Two bytes: U+00A0 (C2 A0). *)
Definition is_white_space2 (c1 c2 : ascii) : bool :=
  ((N_of_ascii c1 =? 194) && (N_of_ascii c2 =? 160))%N.

(** Three bytes: U+1680 (E1 9A 80), U+2000 to U+200A (E2 80 80 to E2 80 8A),
    U+2028 and U+2029 (E2 80 A8, A9), U+202F (E2 80 AF), U+205F (E2 81 9F),
    U+3000 (E3 80 80) and U+FEFF (EF BB BF). *)
Definition is_white_space3 (c1 c2 c3 : ascii) : bool :=
  let a := N_of_ascii c1 in
  let b := N_of_ascii c2 in
  let c := N_of_ascii c3 in
  (((a =? 225) && ((b =? 154) && (c =? 128)))
   || ((a =? 226) && ((b =? 128)
                      && (((128 <=? c) && (c <=? 138))
                          || (c =? 168) || (c =? 169) || (c =? 175))))
   || ((a =? 226) && ((b =? 129) && (c =? 159)))
   || ((a =? 227) && ((b =? 128) && (c =? 128)))
   || ((a =? 239) && ((b =? 187) && (c =? 191))))%N.

(** [String.prototype.trimStart]: the string from its first character that
    is not white space. *)
Fixpoint trimStart (s : string) : string :=
  match s with
  | EmptyString => EmptyString
  | String c1 s1 =>
      if is_white_space c1 then trimStart s1
      else
        match s1 with
        | EmptyString => s
        | String c2 s2 =>
            if is_white_space2 c1 c2 then trimStart s2
            else
              match s2 with
              | EmptyString => s
              | String c3 s3 => if is_white_space3 c1 c2 c3 then trimStart s3 else s
              end
        end
  end.

(** [String.prototype.trimEnd]: the string up to the point from which only
    white space follows. *)
Fixpoint trimEnd (s : string) : string :=
  match s with
  | EmptyString => EmptyString
  | String c s' =>
      match trimStart s with
      | EmptyString => EmptyString
      | _ => String c (trimEnd s')
      end
  end.

(** [String.prototype.trim]. *)
Definition trim (s : string) : string := trimEnd (trimStart s).

(** [String.prototype.startsWith] and [String.prototype.endsWith]. *)
Definition startsWith (s p : string) : bool := String.prefix p s.

Fixpoint endsWith (s suffix : string) : bool :=
  String.eqb s suffix ||
  match s with
  | EmptyString => false
  | String _ s' => endsWith s' suffix
  end.

(** Truthiness of a string: only the empty string is falsy. *)
Definition truthy_string (s : string) : bool :=
  match s with EmptyString => false | _ => true end.

(** The value of a character as a digit: 0-9, then a-z and A-Z for 10-35. *)
Definition digit_value (c : ascii) : option Z :=
  let n := Z.of_N (N_of_ascii c) in
  if ((48 <=? n) && (n <=? 57))%Z then Some (n - 48)%Z
  else if ((97 <=? n) && (n <=? 122))%Z then Some (n - 87)%Z
  else if ((65 <=? n) && (n <=? 90))%Z then Some (n - 55)%Z
  else None.

(** The longest prefix of radix-[R] digits of [s], as a number; [acc] is the
    value read so far ([None] while no digit has been read). *)
Fixpoint digits (R : Z) (s : string) (acc : option Z) : option Z :=
  match s with
  | EmptyString => acc
  | String c s' =>
      match digit_value c with
      | Some d =>
          if (d <? R)%Z
          then digits R s' (Some (match acc with Some a => a * R + d | None => d end)%Z)
          else acc
      | None => acc
      end
  end.

(** The Number values [parseInt] can return: [NaN], the two infinities,
    [-0] and the integers [Finite z] (0 is [Finite 0]). *)
Inductive Number : Type :=
| NaN
| Infinity (negative : bool)
| NegZero
| Finite (z : Z).

(** The Number value for an integer [x]: [x] itself while its magnitude is
    below 2^53; beyond, the magnitude keeps its 53 leading bits, rounded to
    nearest and to even on a tie, and a result of 2^1024 or more is an
    infinity. *)
Definition Number_value (x : Z) : Number :=
  let a := Z.abs x in
  if (a <? 2 ^ 53)%Z then Finite x
  else
    let e := (Z.log2 a - 52)%Z in
    let q := (a / 2 ^ e)%Z in
    let r := (a mod 2 ^ e)%Z in
    let half := (2 ^ (e - 1))%Z in
    let q' := if ((half <? r) || ((r =? half) && Z.odd q))%Z then (q + 1)%Z else q in
    let m := (q' * 2 ^ e)%Z in
    if (2 ^ 1024 <=? m)%Z then Infinity (x <? 0)%Z else Finite (Z.sgn x * m)%Z.

(** [parseInt(s)] without a radix argument: leading white space is skipped,
    then an optional sign, then an optional [0x]/[0X] prefix (radix 16,
    otherwise 10), then the longest prefix of digits is read.  No digit
    gives [NaN], the value zero gives [-0] after a minus sign, every other
    value its Number (all digits count, as the engines have it). *)
Definition parseInt (s : string) : Number :=
  let s1 := trimStart s in
  let '(sign, s2) :=
    match s1 with
    | String "-" r => ((-1)%Z, r)
    | String "+" r => (1%Z, r)
    | _ => (1%Z, s1)
    end in
  let '(R, s3) :=
    match s2 with
    | String "0" (String "x" r) => (16%Z, r)
    | String "0" (String "X" r) => (16%Z, r)
    | _ => (10%Z, s2)
    end in
  match digits R s3 None with
  | None => NaN
  | Some mathInt =>
      if (mathInt =? 0)%Z then (if (sign <? 0)%Z then NegZero else Finite 0)
      else Number_value (sign * mathInt)
  end.

(** [n || 0] on a number: [NaN], [-0] and [0] are falsy, an infinity is not. *)
Definition or_zero (n : Number) : Number :=
  match n with
  | NaN | NegZero => Finite 0
  | _ => n
  end.

(** A number in a JSON request body: [NaN] and the infinities travel as
    [null], [-0] as 0. *)
Definition JSON_number (n : Number) : option Z :=
  match n with
  | NaN | Infinity _ => None
  | NegZero => Some 0%Z
  | Finite z => Some z
  end.

(** An integer in a template literal: its decimal notation. *)
Definition number_toString (n : Z) : string :=
  NilZero.string_of_int (Z.to_int n).

(** A possibly undefined string in a template literal. *)
Definition template (s : option string) : string :=
  match s with Some v => v | None => "undefined" end.

End JS.

(* ================================================================== *)
(** ** Handlers as state transformers with exceptions *)

Module Eff.

(** How a piece of code completes: normally with a value, or by a thrown
    exception. *)
Inductive Completion (A : Type) : Type :=
| Normal (a : A)
| Throw (e : string).
Arguments Normal {A} a.
Arguments Throw {A} e.

Definition M (S A : Type) : Type := S -> Completion A * S.

Definition ret {S A : Type} (a : A) : M S A := fun s => (Normal a, s).

Definition bind {S A B : Type} (m : M S A) (k : A -> M S B) : M S B :=
  fun s =>
    match m s with
    | (Normal a, s') => k a s'
    | (Throw e, s') => (Throw e, s')
    end.

Definition throw {S A : Type} (e : string) : M S A := fun s => (Throw e, s).

(** [try { body } catch (e) { handler e }] *)
Definition try_catch {S A : Type} (body : M S A) (handler : string -> M S A) : M S A :=
  fun s =>
    match body s with
    | (Normal a, s') => (Normal a, s')
    | (Throw e, s') => handler e s'
    end.

(** [try { body } finally { fin }]: [fin] runs however [body] completes
    (also after a [return] inside [body]); the completion of [body] is kept
    unless [fin] itself throws. *)
Definition try_finally {S A : Type} (body : M S A) (fin : M S unit) : M S A :=
  fun s =>
    match body s with
    | (r, s') =>
        match fin s' with
        | (Normal _, s'') => (r, s'')
        | (Throw e, s'') => (Throw e, s'')
        end
    end.

(** A call of an [async] function whose promise is dropped (neither awaited
    nor returned).  Handlers are run to completion one after the other, so
    the callee's effects take place here, in full; a rejection of the
    dropped promise never reaches the caller.  The only code the source runs
    after such a call is [setUploading(false)], which commutes with the
    callee (lemma [loadQRCodes_setUploading_commute]). *)
Definition unawaited {S : Type} (m : M S unit) : M S unit :=
  fun s => (Normal tt, snd (m s)).

Definition exec {S A : Type} (m : M S A) (s : S) : S := snd (m s).
Definition eval {S A : Type} (m : M S A) (s : S) : Completion A := fst (m s).

End Eff.

Declare Scope eff_scope.
Delimit Scope eff_scope with eff.
Notation "x <- m ;; k" := (Eff.bind m (fun x => k))
  (at level 61, m at next level, right associativity) : eff_scope.
Notation "m ;; k" := (Eff.bind m (fun _ => k))
  (at level 61, right associativity) : eff_scope.

Import Eff.
Local Open Scope eff_scope.

(* ================================================================== *)
(** ** Data *)

(** A browser or multipart [File]: the attributes the source reads.  The
    byte content is never inspected by the source; where the source passes
    the content on (as a [Buffer] or as the [File] itself) the model passes
    the file. *)
Module File.
Record t : Type := { name : string; type : string; size : Z }.
End File.

(** [FormData]: an ordered list of entries, each a string or a file;
    [get] returns the first entry of that name, [null] ([None]) if none. *)
Inductive FormDataEntryValue : Type :=
| EString (s : string)
| EFile (f : File.t).

Definition FormData : Type := list (string * FormDataEntryValue).

Fixpoint get (formData : FormData) (name : string) : option FormDataEntryValue :=
  match formData with
  | [] => None
  | (k, v) :: rest => if String.eqb k name then Some v else get rest name
  end.

(** JavaScript's view of a value returned by [get]. *)
Definition truthy (v : option FormDataEntryValue) : bool :=
  match v with
  | None => false
  | Some (EString s) => JS.truthy_string s
  | Some (EFile _) => true
  end.

Definition ToString (v : option FormDataEntryValue) : string :=
  match v with
  | None => "null"
  | Some (EString s) => s
  | Some (EFile _) => "[object File]"
  end.

(** [v || ''] *)
Definition or_empty (v : option FormDataEntryValue) : FormDataEntryValue :=
  if truthy v then match v with Some x => x | None => EString "" end
  else EString "".

(** [v === s] for a string literal [s] *)
Definition strict_eq (v : option FormDataEntryValue) (s : string) : bool :=
  match v with
  | Some (EString s') => String.eqb s' s
  | _ => false
  end.

(** A row of table [hero_images]; [insert] is the object the handler sends,
    [t] the row the table holds (the sent fields as the request body carries
    them, and the assigned id). *)
Module HeroImage.
Record insert : Type := {
  i_file_name : string;
  i_file_url : string;
  i_title : FormDataEntryValue;
  i_subtitle : FormDataEntryValue;
  i_description : FormDataEntryValue;
  i_display_order : JS.Number;
  i_show_content : bool;
  i_is_active : bool
}.
Record t : Type := {
  id : string;
  file_name : string;
  file_url : string;
  title : FormDataEntryValue;
  subtitle : FormDataEntryValue;
  description : FormDataEntryValue;
  display_order : option Z;
  show_content : bool;
  is_active : bool
}.
Definition stored (new_id : string) (r : insert) : t :=
  {| id := new_id; file_name := i_file_name r; file_url := i_file_url r;
     title := i_title r; subtitle := i_subtitle r; description := i_description r;
     display_order := JS.JSON_number (i_display_order r);
     show_content := i_show_content r;
     is_active := i_is_active r |}.
End HeroImage.

(** [interface QRCodeData] (lines 96-103), a row of table [qr_codes]. *)
Module QRCodeData.
Record t : Type := {
  id : string;
  name : string;
  image_url : string;
  is_active : bool;
  created_at : string;
  updated_at : string
}.
Record insert : Type := {
  i_name : string;
  i_image_url : string;
  i_is_active : bool
}.
Definition stored (new_id now : string) (r : insert) : t :=
  {| id := new_id; name := i_name r; image_url := i_image_url r;
     is_active := i_is_active r; created_at := now; updated_at := now |}.
Definition set_is_active (v : bool) (r : t) : t :=
  {| id := id r; name := name r; image_url := image_url r;
     is_active := v; created_at := created_at r; updated_at := updated_at r |}.
End QRCodeData.

(* ================================================================== *)
(** ** The hosted backend and the environment of a handler *)

Module Supabase.

Record FileOptions : Type := { contentType : string; cacheControl : string }.

Record StorageObject : Type := {
  bucket : string;
  path : string;
  body : File.t;
  options : option FileOptions
}.

(** The requests the source sends. *)
Inductive Call : Type :=
| storage_upload (bucket path : string) (body : File.t) (options : option FileOptions)
| insert_hero_images (row : HeroImage.insert)
| insert_qr_codes (row : QRCodeData.insert)
| select_qr_codes
| update_qr_codes (is_active : bool) (eq_id : option string)
| delete_qr_codes (eq_id : string).

(** What becomes of a request: the service carries it out and answers
    [{ data, error: null }]; or it answers [{ data: null, error }] and
    changes nothing; or the awaited promise rejects. *)
Inductive Fate : Type :=
| Fulfilled
| Failed (message : string)
| Rejected (reason : string).

(** The [{ data, error }] object a request resolves to. *)
Record Reply (D : Type) : Type := { data : option D; error : option string }.
Arguments data {D} r.
Arguments error {D} r.

(** Modelled from the spec: the state of the hosted service of section 6
    (the stored objects and the two row tables), which is not part of the
    repository.  The environment also holds what else a handler can
    observe: the clock, the fate of each request in the order they are sent,
    the answer of the user to a confirmation dialog, and the list of
    requests sent so far. *)
Record World : Type := {
  objects : list StorageObject;
  hero_images : list HeroImage.t;
  qr_codes : list QRCodeData.t;
  next_id : nat;
  clock : Z;
  server_now : string;
  project_url : string;
  user_confirms : bool;
  oracle : nat -> Fate;
  log : list Call
}.

Definition set_objects (v : list StorageObject) (w : World) : World :=
  {| objects := v; hero_images := hero_images w; qr_codes := qr_codes w;
     next_id := next_id w; clock := clock w; server_now := server_now w;
     project_url := project_url w; user_confirms := user_confirms w;
     oracle := oracle w; log := log w |}.

Definition set_hero_images (v : list HeroImage.t) (w : World) : World :=
  {| objects := objects w; hero_images := v; qr_codes := qr_codes w;
     next_id := next_id w; clock := clock w; server_now := server_now w;
     project_url := project_url w; user_confirms := user_confirms w;
     oracle := oracle w; log := log w |}.

Definition set_qr_codes (v : list QRCodeData.t) (w : World) : World :=
  {| objects := objects w; hero_images := hero_images w; qr_codes := v;
     next_id := next_id w; clock := clock w; server_now := server_now w;
     project_url := project_url w; user_confirms := user_confirms w;
     oracle := oracle w; log := log w |}.

Definition set_next_id (v : nat) (w : World) : World :=
  {| objects := objects w; hero_images := hero_images w; qr_codes := qr_codes w;
     next_id := v; clock := clock w; server_now := server_now w;
     project_url := project_url w; user_confirms := user_confirms w;
     oracle := oracle w; log := log w |}.

Definition set_log (v : list Call) (w : World) : World :=
  {| objects := objects w; hero_images := hero_images w; qr_codes := qr_codes w;
     next_id := next_id w; clock := clock w; server_now := server_now w;
     project_url := project_url w; user_confirms := user_confirms w;
     oracle := oracle w; log := v |}.

(** The environment once request [c] has been sent. *)
Definition sent (c : Call) (w : World) : World := set_log (log w ++ [c]) w.

(** The fate of the next request to be sent. *)
Definition next_fate (w : World) : Fate := oracle w (List.length (log w)).

(** The fate of the request after the next one. *)
Definition second_fate (w : World) : Fate := oracle w (S (List.length (log w))).

Definition fresh_id (w : World) : string :=
  NilZero.string_of_uint (Nat.to_uint (next_id w)).

(** Modelled from the spec: [upload(bucket, key, bytes, options)] of the
    storage service (section 6), when it is carried out: the object is
    stored under its key. *)
Definition serve_upload (b p : string) (f : File.t) (o : option FileOptions)
    (w : World) : option string * World :=
  (Some p,
   set_objects (objects w ++ [{| bucket := b; path := p; body := f; options := o |}]) w).

(** Modelled from the spec: [insert(table, row) -> insertedRow] of the
    database service (section 6), when it is carried out: the row is added
    with a server-assigned id and returned ([.select().single()]). *)
Definition serve_insert_hero_images (row : HeroImage.insert)
    (w : World) : option HeroImage.t * World :=
  let r := HeroImage.stored (fresh_id w) row in
  (Some r, set_next_id (S (next_id w)) (set_hero_images (hero_images w ++ [r]) w)).

(** Modelled from the spec: [insert(table, row)] on table [qr_codes], when it
    is carried out: the row is added with a server-assigned id and
    timestamps; no row is asked back. *)
Definition serve_insert_qr_codes (row : QRCodeData.insert)
    (w : World) : option unit * World :=
  let r := QRCodeData.stored (fresh_id w) (server_now w) row in
  (None, set_next_id (S (next_id w)) (set_qr_codes (qr_codes w ++ [r]) w)).

(** [order('created_at', { ascending: false })] *)
Fixpoint insert_desc (r : QRCodeData.t) (l : list QRCodeData.t) : list QRCodeData.t :=
  match l with
  | [] => [r]
  | x :: l' =>
      if String.leb (QRCodeData.created_at x) (QRCodeData.created_at r)
      then r :: l
      else x :: insert_desc r l'
  end.

Definition order_created_at_desc (l : list QRCodeData.t) : list QRCodeData.t :=
  fold_right insert_desc [] l.

(** Modelled from the spec: [select(table, filters, order) -> rows]; the
    table is left as it is. *)
Definition serve_select_qr_codes (w : World) : option (list QRCodeData.t) * World :=
  (Some (order_created_at_desc (qr_codes w)), w).

(** The rows a filter selects: all of them without a filter, those with the
    given id with [.eq('id', id)]. *)
Definition selects (eq_id : option string) (r : QRCodeData.t) : bool :=
  match eq_id with
  | None => true
  | Some i => String.eqb (QRCodeData.id r) i
  end.

(** Modelled from the spec: [update(table, patch, filter)], when it is
    carried out: the patch [{ is_active: v }] is applied to every row the
    filter selects. *)
Definition serve_update_qr_codes (v : bool) (eq_id : option string)
    (w : World) : option unit * World :=
  (None,
   set_qr_codes
     (map (fun r => if selects eq_id r then QRCodeData.set_is_active v r else r)
          (qr_codes w)) w).

(** Modelled from the spec: [delete(table, filter)], when it is carried
    out: the rows with the given id are removed. *)
Definition serve_delete_qr_codes (i : string) (w : World) : option unit * World :=
  (None,
   set_qr_codes (filter (fun r => negb (String.eqb (QRCodeData.id r) i)) (qr_codes w)) w).

(** Modelled from the spec: [getPublicUrl(bucket, key) -> url]; the address
    is computed by the client library, no request is sent. *)
Definition getPublicUrl (w : World) (b p : string) : string :=
  project_url w ++ "/storage/v1/object/public/" ++ b ++ "/" ++ p.

End Supabase.

(** A running handler: its own state (the component state on the client,
    nothing on the server), the environment, and its console. *)
Record Proc (L : Type) : Type := {
  local : L;
  world : Supabase.World;
  console : list string
}.
Arguments local {L} p.
Arguments world {L} p.
Arguments console {L} p.

Definition set_local {L : Type} (v : L) (p : Proc L) : Proc L :=
  {| local := v; world := world p; console := console p |}.
Definition set_world {L : Type} (w : Supabase.World) (p : Proc L) : Proc L :=
  {| local := local p; world := w; console := console p |}.
Definition set_console {L : Type} (c : list string) (p : Proc L) : Proc L :=
  {| local := local p; world := world p; console := c |}.

(** [await] of a request: it is sent (and logged), and the environment
    decides its fate. *)
Definition send {L D : Type} (c : Supabase.Call)
    (serve : Supabase.World -> option D * Supabase.World) : M (Proc L) (Supabase.Reply D) :=
  fun p =>
    let w := world p in
    match Supabase.next_fate w with
    | Supabase.Fulfilled =>
        let '(d, w') := serve (Supabase.sent c w) in
        (Normal {| Supabase.data := d; Supabase.error := None |}, set_world w' p)
    | Supabase.Failed msg =>
        (Normal {| Supabase.data := None; Supabase.error := Some msg |},
         set_world (Supabase.sent c w) p)
    | Supabase.Rejected e => (Throw e, set_world (Supabase.sent c w) p)
    end.

(** [console.error(label, err)]: the console keeps the label (its text,
    without the leading symbol some labels have in the source). *)
Definition console_error {L : Type} (label : string) : M (Proc L) unit :=
  fun p => (Normal tt, set_console (console p ++ [label]) p).

(** [Date.now()] *)
Definition Date_now {L : Type} : M (Proc L) Z :=
  fun p => (Normal (Supabase.clock (world p)), p).

(** [confirm(message)] *)
Definition confirm {L : Type} (message : string) : M (Proc L) bool :=
  fun p => (Normal (Supabase.user_confirms (world p)), p).

Definition storage_getPublicUrl {L : Type} (b p : string) : M (Proc L) string :=
  fun s => (Normal (Supabase.getPublicUrl (world s) b p), s).

(** The requests sent by a run that started in [p] and ended in [p']. *)
Definition sent_since {L : Type} (p p' : Proc L) : list Supabase.Call :=
  skipn (List.length (Supabase.log (world p))) (Supabase.log (world p')).

(* ================================================================== *)
(** ** The hero-image upload handler (lines 1-78) *)

Module HeroImages.
Import Supabase.

(** A request: its body parsed as form data, or [None] when
    [request.formData()] rejects. *)
Record NextRequest : Type := { form : option FormData }.

(** The JSON bodies the handler answers with:
    [{ error }] and [{ success: true, image, message }]. *)
Inductive Body : Type :=
| error_body (error : string)
| success_body (image : option HeroImage.t) (message : string).

Record NextResponse : Type := { status : Z; body : Body }.

(** [NextResponse.json(body, { status })]; the status is 200 when not given. *)
Definition json (b : Body) (init : option Z) : NextResponse :=
  {| status := match init with Some s => s | None => 200%Z end; body := b |}.

Definition request_formData (request : NextRequest) : M (Proc unit) FormData :=
  match form request with
  | Some fd => ret fd
  | None => throw "TypeError: could not parse content as FormData"
  end.

(** Reading [file.name] and calling a method on it: on a (non-empty) string
    entry [file.name] is [undefined] and the call throws. *)
Definition as_File (v : option FormDataEntryValue) : M (Proc unit) File.t :=
  match v with
  | Some (EFile f) => ret f
  | _ => throw "TypeError: cannot read properties of undefined"
  end.

Definition POST (request : NextRequest) : M (Proc unit) NextResponse :=
  try_catch
    (formData <- request_formData request ;;
     let file := get formData "file" in
     let title := get formData "title" in
     let subtitle := get formData "subtitle" in
     let description := get formData "description" in
     let displayOrder := JS.or_zero (JS.parseInt (ToString (get formData "display_order"))) in
     let showContent := strict_eq (get formData "show_content") "true" in
     if negb (truthy file) then
       ret (json (error_body "No file provided") (Some 400%Z))
     else
       f <- as_File file ;;
       (* Generate unique filename *)
       let fileExt := option_map JS.toLowerCase (JS.pop (JS.split "." (File.name f))) in
       now <- Date_now ;;
       let fileName := "hero-" ++ JS.number_toString now ++ "." ++ JS.template fileExt in
       (* Upload to Supabase Storage *)
       let opts := Some {| contentType := File.type f; cacheControl := "3600" |} in
       upload <- send (storage_upload "hero-images" fileName f opts)
                      (serve_upload "hero-images" fileName f opts) ;;
       match Supabase.error upload with
       | Some _ =>
           console_error "Error uploading file:" ;;
           ret (json (error_body "Failed to upload file") (Some 500%Z))
       | None =>
           (* Get public URL *)
           publicUrl <- storage_getPublicUrl "hero-images" fileName ;;
           (* Save metadata to database *)
           let row :=
             {| HeroImage.i_file_name := fileName;
                HeroImage.i_file_url := publicUrl;
                HeroImage.i_title := or_empty title;
                HeroImage.i_subtitle := or_empty subtitle;
                HeroImage.i_description := or_empty description;
                HeroImage.i_display_order := displayOrder;
                HeroImage.i_show_content := showContent;
                HeroImage.i_is_active := true |} in
           db <- send (insert_hero_images row) (serve_insert_hero_images row) ;;
           match Supabase.error db with
           | Some _ =>
               console_error "Error saving to database:" ;;
               ret (json (error_body "Failed to save metadata") (Some 500%Z))
           | None =>
               ret (json (success_body (Supabase.data db) "Hero image uploaded successfully")
                         None)
           end
       end)
    (fun error =>
       console_error "Error in hero image upload:" ;;
       ret (json (error_body "Internal server error") (Some 500%Z))).

End HeroImages.

(* ================================================================== *)
(** ** The QR-code manager component (lines 105-269) *)

Module QRCodeManager.
Import Supabase.

(** The component state, one field per [useState] (lines 106-112). *)
Record State : Type := {
  qrCodes : list QRCodeData.t;
  loading : bool;
  uploading : bool;
  selectedFile : option File.t;
  qrCodeName : string;
  error : string;
  success : string
}.

Definition initial : State :=
  {| qrCodes := []; loading := true; uploading := false; selectedFile := None;
     qrCodeName := ""; error := ""; success := "" |}.

Definition modify (f : State -> State) : M (Proc State) unit :=
  fun p => (Normal tt, set_local (f (local p)) p).

Definition setQrCodes (v : list QRCodeData.t) : M (Proc State) unit :=
  modify (fun s =>
    {| qrCodes := v; loading := loading s; uploading := uploading s;
       selectedFile := selectedFile s; qrCodeName := qrCodeName s;
       error := error s; success := success s |}).

Definition setLoading (v : bool) : M (Proc State) unit :=
  modify (fun s =>
    {| qrCodes := qrCodes s; loading := v; uploading := uploading s;
       selectedFile := selectedFile s; qrCodeName := qrCodeName s;
       error := error s; success := success s |}).

Definition setUploading (v : bool) : M (Proc State) unit :=
  modify (fun s =>
    {| qrCodes := qrCodes s; loading := loading s; uploading := v;
       selectedFile := selectedFile s; qrCodeName := qrCodeName s;
       error := error s; success := success s |}).

Definition setSelectedFile (v : option File.t) : M (Proc State) unit :=
  modify (fun s =>
    {| qrCodes := qrCodes s; loading := loading s; uploading := uploading s;
       selectedFile := v; qrCodeName := qrCodeName s;
       error := error s; success := success s |}).

Definition setQrCodeName (v : string) : M (Proc State) unit :=
  modify (fun s =>
    {| qrCodes := qrCodes s; loading := loading s; uploading := uploading s;
       selectedFile := selectedFile s; qrCodeName := v;
       error := error s; success := success s |}).

Definition setError (v : string) : M (Proc State) unit :=
  modify (fun s =>
    {| qrCodes := qrCodes s; loading := loading s; uploading := uploading s;
       selectedFile := selectedFile s; qrCodeName := qrCodeName s;
       error := v; success := success s |}).

Definition setSuccess (v : string) : M (Proc State) unit :=
  modify (fun s =>
    {| qrCodes := qrCodes s; loading := loading s; uploading := uploading s;
       selectedFile := selectedFile s; qrCodeName := qrCodeName s;
       error := error s; success := v |}).

(** Lines 118-139. *)
Definition loadQRCodes : M (Proc State) unit :=
  try_finally
    (try_catch
       (setLoading true ;;
        reply <- send select_qr_codes serve_select_qr_codes ;;
        match Supabase.error reply with
        | Some _ =>
            console_error "Error loading QR codes:" ;;
            setError "Failed to load QR codes"
        | None =>
            setQrCodes (match Supabase.data reply with Some d => d | None => [] end)
        end)
       (fun err =>
          console_error "Error loading QR codes:" ;;
          setError "Failed to load QR codes"))
    (setLoading false).

(** The change event of the file input: [e.target.files], possibly [null]. *)
Record ChangeEvent : Type := { target_files : option (list File.t) }.

(** [e.target.files?.[0]] *)
Definition first_file (e : ChangeEvent) : option File.t :=
  match target_files e with Some l => hd_error l | None => None end.

(** Lines 141-155. *)
Definition handleFileSelect (e : ChangeEvent) : M (Proc State) unit :=
  let file := first_file e in
  match file with
  | Some f =>
      if (File.size f >? 5 * 1024 * 1024)%Z then
        setError "File size must be less than 5MB"
      else if negb (JS.startsWith (File.type f) "image/") then
        setError "Please select an image file"
      else
        setSelectedFile (Some f) ;;
        setError ""
  | None => ret tt
  end.

(** Reading a property of [selectedFile]: throws on [null]. *)
Definition non_null (v : option File.t) : M (Proc State) File.t :=
  match v with
  | Some f => ret f
  | None => throw "TypeError: cannot read properties of null"
  end.

(** Lines 157-210.  [render] is the state of the render that created the
    handler: the values of [selectedFile], [qrCodeName] and [qrCodes] that
    the closure reads. *)
Definition uploadQRCode (render : State) : M (Proc State) unit :=
  if negb (match selectedFile render with Some _ => true | None => false end)
     || negb (JS.truthy_string (JS.trim (qrCodeName render)))
  then
    setError "Please select a file and enter a name"
  else
    try_finally
      (try_catch
         (setUploading true ;;
          setError "" ;;
          (* Upload image to Supabase Storage *)
          f <- non_null (selectedFile render) ;;
          let fileExt := JS.pop (JS.split "." (File.name f)) in
          now <- Date_now ;;
          let fileName := JS.number_toString now ++ "." ++ JS.template fileExt in
          upload <- send (storage_upload "qr-codes" fileName f None)
                         (serve_upload "qr-codes" fileName f None) ;;
          match Supabase.error upload with
          | Some _ =>
              console_error "Upload error:" ;;
              setError "Failed to upload image"
          | None =>
              (* Get public URL *)
              publicUrl <- storage_getPublicUrl "qr-codes" fileName ;;
              (* Save to database *)
              let row :=
                {| QRCodeData.i_name := JS.trim (qrCodeName render);
                   QRCodeData.i_image_url := publicUrl;
                   QRCodeData.i_is_active := Nat.eqb (List.length (qrCodes render)) 0 |} in
              db <- send (insert_qr_codes row) (serve_insert_qr_codes row) ;;
              match Supabase.error db with
              | Some _ =>
                  console_error "Database error:" ;;
                  setError "Failed to save QR code"
              | None =>
                  setSuccess "QR code uploaded successfully!" ;;
                  setSelectedFile None ;;
                  setQrCodeName "" ;;
                  unawaited loadQRCodes
              end
          end)
         (fun err =>
            console_error "Upload error:" ;;
            setError "Failed to upload QR code"))
      (setUploading false).

(** Lines 212-233. *)
Definition deleteQRCode (id : string) : M (Proc State) unit :=
  ok <- confirm "Are you sure you want to delete this QR code?" ;;
  if negb ok then ret tt
  else
    try_catch
      (reply <- send (delete_qr_codes id) (serve_delete_qr_codes id) ;;
       match Supabase.error reply with
       | Some _ =>
           console_error "Delete error:" ;;
           setError "Failed to delete QR code"
       | None =>
           setSuccess "QR code deleted successfully!" ;;
           unawaited loadQRCodes
       end)
      (fun err =>
         console_error "Delete error:" ;;
         setError "Failed to delete QR code").

(** Lines 235-260. *)
Definition toggleActive (id : string) : M (Proc State) unit :=
  try_catch
    ((* First, deactivate all QR codes *)
     _ <- send (update_qr_codes false None) (serve_update_qr_codes false None) ;;
     (* Then activate the selected one *)
     reply <- send (update_qr_codes true (Some id))
                   (serve_update_qr_codes true (Some id)) ;;
     match Supabase.error reply with
     | Some _ =>
         console_error "Toggle error:" ;;
         setError "Failed to update QR code status"
     | None =>
         setSuccess "QR code status updated!" ;;
         unawaited loadQRCodes
     end)
    (fun err =>
       console_error "Toggle error:" ;;
       setError "Failed to update QR code status").

(** What can happen to the mounted component: the effect of line 114 and
    the controls of the markup (lines 271-467) that change its state. *)
Inductive Event : Type :=
| Mount
| ChangeName (value : string)
| ChangeFile (e : ChangeEvent)
| ClickUpload
| ClickRefresh
| ClickDelete (id : string)
| ClickToggle (id : string).

Definition dispatch (render : State) (ev : Event) : M (Proc State) unit :=
  match ev with
  | Mount => unawaited loadQRCodes
  | ChangeName v => setQrCodeName v
  | ChangeFile e => handleFileSelect e
  | ClickUpload => unawaited (uploadQRCode render)
  | ClickRefresh => unawaited loadQRCodes
  | ClickDelete id => unawaited (deleteQRCode id)
  | ClickToggle id => unawaited (toggleActive id)
  end.

(** The component between two events, when events are handled one after
    the other: it starts in [initial], each event is handled to completion by
    the handlers of the current render, and between events the environment
    may change in any way. *)
Inductive reachable : Proc State -> Prop :=
| reach_initial (w : World) :
    reachable {| local := initial; world := w; console := [] |}
| reach_event (p : Proc State) (ev : Event) :
    reachable p -> reachable (exec (dispatch (local p) ev) p)
| reach_world (p : Proc State) (w : World) :
    reachable p -> reachable (set_world w p).

End QRCodeManager.

(* ================================================================== *)
(** ** Notions used to state the properties *)

(** A computation keeps an observation [f] of the state when running it
    never changes [f], however it completes. *)
Definition keeps {S A X : Type} (f : S -> X) (m : M S A) : Prop :=
  forall s, f (exec m s) = f s.

Module Contract.

Fixpoint has_dot (s : string) : bool :=
  match s with
  | EmptyString => false
  | String c s' => Ascii.eqb c "." || has_dot s'
  end.

(** The extension of a file name as section 4.1 words it: the segment after
    the last dot (the whole name when it has no dot). *)
Fixpoint after_last_dot (s : string) : string :=
  match s with
  | EmptyString => EmptyString
  | String c s' =>
      if has_dot s' then after_last_dot s'
      else if Ascii.eqb c "." then s'
      else s
  end.

(** The code points that count as white space: TAB, LF, VT, FF, CR, the
    space separators of Unicode (SPACE, NO-BREAK SPACE, U+1680, U+2000 to
    U+200A, U+202F, U+205F, U+3000), the line and paragraph separators and
    the byte-order mark. *)
Definition white_space : list N :=
  [0x9; 0xA; 0xB; 0xC; 0xD; 0x20; 0xA0; 0x1680;
   0x2000; 0x2001; 0x2002; 0x2003; 0x2004; 0x2005; 0x2006; 0x2007; 0x2008;
   0x2009; 0x200A; 0x2028; 0x2029; 0x202F; 0x205F; 0x3000; 0xFEFF]%N.

(** The UTF-8 encoding of a code point below 2^16. *)
Definition utf8 (n : N) : string :=
  if (n <? 0x80)%N then String (ascii_of_N n) EmptyString
  else if (n <? 0x800)%N then
    String (ascii_of_N (0xC0 + n / 64))
      (String (ascii_of_N (0x80 + n mod 64)) EmptyString)
  else
    String (ascii_of_N (0xE0 + n / 4096))
      (String (ascii_of_N (0x80 + (n / 64) mod 64))
         (String (ascii_of_N (0x80 + n mod 64)) EmptyString)).

Fixpoint starts_with (w s : string) : bool :=
  match w with
  | EmptyString => true
  | String a w' =>
      match s with
      | EmptyString => false
      | String b s' => Ascii.eqb a b && starts_with w' s'
      end
  end.

Fixpoint drop (n : nat) (s : string) : string :=
  match n, s with
  | S k, String _ s' => drop k s'
  | _, _ => s
  end.

(** The white-space character a text starts with, if any. *)
Definition white_space_prefix (s : string) : option string :=
  find (fun w => starts_with w s) (map utf8 white_space).

(** The text without its leading white space ([fuel] bounds the number of
    characters passed over). *)
Fixpoint skip (fuel : nat) (s : string) : string :=
  match fuel with
  | O => s
  | S k =>
      match white_space_prefix s with
      | Some w => skip k (drop (String.length w) s)
      | None => s
      end
  end.

Definition skip_white_space (s : string) : string := skip (String.length s) s.

(** The integer parse of a text, read off the text itself and valued by the
    Standard Library's numeral parsers: after leading white space and one
    optional sign, the run of decimal digits the text goes on with; after
    [0x] or [0X], the run of hexadecimal digits.  An empty run is no
    integer. *)
Definition is_decimal_digit (c : ascii) : bool :=
  match c with
  | "0" | "1" | "2" | "3" | "4" | "5" | "6" | "7" | "8" | "9" => true
  | _ => false
  end%char.

Definition is_hexadecimal_digit (c : ascii) : bool :=
  is_decimal_digit c ||
  match c with
  | "a" | "b" | "c" | "d" | "e" | "f" | "A" | "B" | "C" | "D" | "E" | "F" => true
  | _ => false
  end%char.

Fixpoint leading (digit : ascii -> bool) (s : string) : string :=
  match s with
  | EmptyString => EmptyString
  | String c s' => if digit c then String c (leading digit s') else EmptyString
  end.

Definition decimal (s : string) : option Z :=
  match leading is_decimal_digit s with
  | EmptyString => None
  | numeral => option_map Z.of_uint (NilEmpty.uint_of_string numeral)
  end.

Definition hexadecimal (s : string) : option Z :=
  match leading is_hexadecimal_digit s with
  | EmptyString => None
  | numeral =>
      option_map Z.of_hex_uint
        (HexadecimalString.NilEmpty.uint_of_string (JS.toLowerCase numeral))
  end.

Definition unsigned (s : string) : option Z :=
  if String.prefix "0x" s || String.prefix "0X" s then hexadecimal (drop 2 s)
  else decimal s.

Definition integer_parse (s : string) : option Z :=
  let t := skip_white_space s in
  if String.prefix "-" t then option_map Z.opp (unsigned (drop 1 t))
  else if String.prefix "+" t then unsigned (drop 1 t)
  else unsigned t.

(** The integer in form field [display_order]: none when the field is
    absent, holds a file, or does not start with an integer. *)
Definition integer_field (formData : FormData) : option Z :=
  match get formData "display_order" with
  | Some (EString s) => integer_parse s
  | _ => None
  end.

(** The display order as section 4.1 words it: the integer parse of field
    [display_order], 0 when the field is absent or does not parse. *)
Definition integer_or_zero (formData : FormData) : Z :=
  match integer_field formData with
  | Some n => n
  | None => 0%Z
  end.

(** The display order of the row: that integer as a Number, the double
    nearest to it ([nearest_double] below says what that is). *)
Definition display_order (formData : FormData) : JS.Number :=
  JS.Number_value (integer_or_zero formData).

(** The integers a double-precision number can be: 53 significant bits and
    a magnitude below 2^1024.  Only integers matter for the double nearest
    to an integer: below 2^53 in magnitude an integer is a double itself,
    and from 2^52 on every double is an integer. *)
Definition significant (m : Z) : Prop :=
  exists k e : Z, (0 <= e)%Z /\ (Z.abs k < 2 ^ 53)%Z /\ m = (k * 2 ^ e)%Z.

Definition representable (m : Z) : Prop :=
  significant m /\ (Z.abs m < 2 ^ 1024)%Z.

(** [v] is the double-precision number nearest to the integer [x]: below
    2^1024 - 2^970 in magnitude, an integer a double can be than which none
    is nearer, with an even last significant bit when a second one is as
    near; from there on, the infinity of the sign of [x]. *)
Definition nearest_double (x : Z) (v : JS.Number) : Prop :=
  match v with
  | JS.Finite m =>
      (Z.abs x < 2 ^ 1024 - 2 ^ 970)%Z
      /\ representable m
      /\ forall m', representable m' ->
           (Z.abs (x - m) <= Z.abs (x - m'))%Z
           /\ (Z.abs (x - m) = Z.abs (x - m') -> m' <> m ->
               Z.even (m / 2 ^ (Z.log2 (Z.abs x) - 52)) = true)
  | JS.Infinity negative =>
      (2 ^ 1024 - 2 ^ 970 <= Z.abs x)%Z /\ negative = (x <? 0)%Z
  | JS.NaN | JS.NegZero => False
  end.

(** The double-precision number nearest to an integer, by the Standard
    Library's model of IEEE 754 arithmetic (53 bits of precision, exponents
    below 1024). *)
Definition binary64 (x : Z) : JS.Number :=
  match SpecFloat.binary_normalize 53 1024 x 0 false with
  | SpecFloat.S754_zero _ => JS.Finite 0
  | SpecFloat.S754_infinity s => JS.Infinity s
  | SpecFloat.S754_nan => JS.NaN
  | SpecFloat.S754_finite s m e =>
      JS.Finite ((if s then -1 else 1) * Z.shiftl (Zpos m) e)
  end.

(** The table after a successful "clear every row, then set the rows with
    id [i]". *)
Definition cleared_then_set (i : string) (rows : list QRCodeData.t) : list QRCodeData.t :=
  map (fun r => if Supabase.selects (Some i) r then QRCodeData.set_is_active true r else r)
      (map (fun r => if Supabase.selects None r then QRCodeData.set_is_active false r else r)
           rows).

End Contract.

(** Concrete inputs on which the statements below are exercised. *)
Module Sample.
Import Supabase QRCodeManager.

Definition png : File.t :=
  {| File.name := "Photo.Holiday.PNG"; File.type := "image/png"; File.size := 2097152 |}.

Definition big : File.t :=
  {| File.name := "poster.png"; File.type := "image/png"; File.size := 6291456 |}.

Definition row_a : QRCodeData.t :=
  {| QRCodeData.id := "a"; QRCodeData.name := "Payment QR";
     QRCodeData.image_url := "https://example.supabase.co/storage/v1/object/public/qr-codes/1.png";
     QRCodeData.is_active := true;
     QRCodeData.created_at := "2024-01-01T10:00:00Z";
     QRCodeData.updated_at := "2024-01-01T10:00:00Z" |}.

Definition row_b : QRCodeData.t :=
  {| QRCodeData.id := "b"; QRCodeData.name := "Backup QR";
     QRCodeData.image_url := "https://example.supabase.co/storage/v1/object/public/qr-codes/2.png";
     QRCodeData.is_active := false;
     QRCodeData.created_at := "2024-01-02T10:00:00Z";
     QRCodeData.updated_at := "2024-01-02T10:00:00Z" |}.

(** A backend holding [rows] in table [qr_codes], with the given fates. *)
Definition backend (rows : list QRCodeData.t) (fates : nat -> Fate) : World :=
  {| objects := []; hero_images := []; qr_codes := rows; next_id := 3;
     clock := 1700000000000; server_now := "2024-01-03T10:00:00Z";
     project_url := "https://example.supabase.co"; user_confirms := true;
     oracle := fates; log := [] |}.

Definition always_ok : nat -> Fate := fun _ => Fulfilled.

(** The first request is answered with an error, the others are carried out. *)
Definition first_fails : nat -> Fate :=
  fun n => match n with O => Failed "permission denied" | _ => Fulfilled end.

Definition server (fates : nat -> Fate) : Proc unit :=
  {| local := tt; world := backend [] fates; console := [] |}.

Definition client (st : State) (rows : list QRCodeData.t) (fates : nat -> Fate) : Proc State :=
  {| local := st; world := backend rows fates; console := [] |}.

Definition upload_request : HeroImages.NextRequest :=
  {| HeroImages.form :=
       Some [("title", EString "Summer"); ("file", EFile png);
             ("display_order", EString "3")] |}.

Definition no_file_request : HeroImages.NextRequest :=
  {| HeroImages.form := Some [("title", EString "Summer")] |}.

(** The row [POST] sends for [upload_request] at the sample clock, and the
    row the table then holds. *)
Definition sent_row : HeroImage.insert :=
  {| HeroImage.i_file_name := "hero-1700000000000.png";
     HeroImage.i_file_url :=
       "https://example.supabase.co/storage/v1/object/public/hero-images/hero-1700000000000.png";
     HeroImage.i_title := EString "Summer";
     HeroImage.i_subtitle := EString "";
     HeroImage.i_description := EString "";
     HeroImage.i_display_order := JS.Finite 3;
     HeroImage.i_show_content := false;
     HeroImage.i_is_active := true |}.

Definition stored_row : HeroImage.t := HeroImage.stored "3" sent_row.

(** The component with a file chosen and a name entered. *)
Definition ready : State :=
  {| qrCodes := []; loading := false; uploading := false; selectedFile := Some png;
     qrCodeName := " Payment QR "; error := ""; success := "" |}.

(** The component after mounting on an empty table. *)
Definition mounted : Proc State :=
  exec (dispatch initial Mount) (client initial [] always_ok).

(** The component after the user then chose [png]. *)
Definition chose_png : Proc State :=
  exec (dispatch (local mounted) (ChangeFile {| target_files := Some [png] |})) mounted.

End Sample.

(* ================================================================== *)
(** ** The rest of the component: markup and download helper *)

Module Markup.
Import QRCodeManager.

(** The [disabled] attribute of the upload button (line 331):
    [uploading || !selectedFile || !qrCodeName.trim()]. *)
Definition upload_disabled (render : State) : bool :=
  uploading render
  || negb (match selectedFile render with Some _ => true | None => false end)
  || negb (JS.truthy_string (JS.trim (qrCodeName render))).

End Markup.

(** [downloadQRCode] (lines 262-269) works on the document only. *)
Module Download.

(** The anchor element the helper creates: its identity as a node and the
    two attributes the source assigns. *)
Record HTMLAnchorElement : Type := { node : nat; href : string; download : string }.

(** The part of the document the helper touches: the child nodes of
    [document.body] (by identity), the number of nodes created so far (the
    identity of the next one), and the anchors that were clicked. *)
Record Document : Type := {
  body : list nat;
  created : nat;
  clicked : list HTMLAnchorElement
}.

(** [document.createElement('a')] *)
Definition createElement_a : M Document HTMLAnchorElement :=
  fun d =>
    (Normal {| node := created d; href := ""; download := "" |},
     {| body := body d; created := S (created d); clicked := clicked d |}).

Definition without (n : nat) (l : list nat) : list nat :=
  filter (fun m => negb (Nat.eqb m n)) l.

(** [document.body.appendChild(link)]: the node becomes the last child (a
    node that is already a child is moved). *)
Definition appendChild (link : HTMLAnchorElement) : M Document unit :=
  fun d =>
    (Normal tt,
     {| body := without (node link) (body d) ++ [node link];
        created := created d; clicked := clicked d |}).

(** [link.click()] *)
Definition click (link : HTMLAnchorElement) : M Document unit :=
  fun d =>
    (Normal tt,
     {| body := body d; created := created d; clicked := clicked d ++ [link] |}).

(** [document.body.removeChild(link)]: throws when the node is not a child. *)
Definition removeChild (link : HTMLAnchorElement) : M Document unit :=
  fun d =>
    if existsb (Nat.eqb (node link)) (body d)
    then (Normal tt,
          {| body := without (node link) (body d);
             created := created d; clicked := clicked d |})
    else (Throw "NotFoundError", d).

(** Lines 262-269. *)
Definition downloadQRCode (imageUrl name : string) : M Document unit :=
  link <- createElement_a ;;
  let link := {| node := node link; href := imageUrl; download := download link |} in
  let link := {| node := node link; href := href link; download := name ++ ".png" |} in
  appendChild link ;;
  click link ;;
  removeChild link.

(** The nodes of the body are nodes that were created. *)
Definition well_formed (d : Document) : Prop :=
  Forall (fun n => n < created d) (body d).

End Download.

(** Further notions used to state properties. *)
Module Observe.
Import Supabase QRCodeManager.

(** A computation sends only requests of a given kind: however it runs, the
    list of requests grows at its end, by requests that are all allowed. *)
Definition sends_only {L A : Type} (allowed : Call -> Prop) (m : M (Proc L) A) : Prop :=
  forall p,
    exists new,
      log (world (exec m p)) = (log (world p) ++ new)%list /\ Forall allowed new.

(** A file that passes the two checks of [handleFileSelect]. *)
Definition accepted (f : File.t) : Prop :=
  (File.size f <= 5 * 1024 * 1024)%Z /\ JS.startsWith (File.type f) "image/" = true.

(** The requests of the QR-code manager: uploads to bucket [qr-codes] and
    operations on table [qr_codes]. *)
Definition about_qr_codes (c : Call) : Prop :=
  match c with
  | storage_upload b _ _ _ => b = "qr-codes"
  | insert_hero_images _ => False
  | _ => True
  end.

(** Newest first. *)
Definition newer_or_same (x y : QRCodeData.t) : Prop :=
  String.leb (QRCodeData.created_at y) (QRCodeData.created_at x) = true.

End Observe.

(** Further concrete inputs. *)
Module Scenario.
Import Supabase QRCodeManager.

Definition jpg : File.t :=
  {| File.name := "Backup.JPG"; File.type := "image/jpeg"; File.size := 5242880 |}.

Definition pdf : File.t :=
  {| File.name := "menu.pdf"; File.type := "application/pdf"; File.size := 1024 |}.

(** The second request is answered with an error, the others are carried
    out. *)
Definition second_fails : nat -> Fate :=
  fun n => match n with 1 => Failed "row violates policy" | _ => Fulfilled end.

(** The first request makes the awaited promise reject. *)
Definition first_rejects : nat -> Fate :=
  fun n => match n with O => Rejected "TypeError: Failed to fetch" | _ => Fulfilled end.

(** The user answers no to the confirmation dialog. *)
Definition declining (rows : list QRCodeData.t) : World :=
  {| objects := []; hero_images := []; qr_codes := rows; next_id := 3;
     clock := 1700000000000; server_now := "2024-01-03T10:00:00Z";
     project_url := "https://example.supabase.co"; user_confirms := false;
     oracle := Sample.always_ok; log := [] |}.

(** A second component state with a file chosen and a name entered, whose
    list holds one row. *)
Definition ready_again : State :=
  {| qrCodes := [Sample.row_a]; loading := false; uploading := false;
     selectedFile := Some jpg; qrCodeName := "Backup QR"; error := "";
     success := "" |}.

(** The render after a first upload ([Sample.ready], empty table, every
    request carried out), with a second file chosen and a second name
    entered. *)
Definition after_first_upload : State :=
  {| qrCodes := qrCodes (local (exec (uploadQRCode Sample.ready)
                  (Sample.client Sample.ready [] Sample.always_ok)));
     loading := false; uploading := false;
     selectedFile := Some jpg; qrCodeName := "Backup QR";
     error := ""; success := "" |}.

(** The component after mounting, choosing [Sample.png] and typing a name. *)
Definition named : Proc State :=
  exec (dispatch (local Sample.chose_png) (ChangeName " Payment QR "))
       Sample.chose_png.

Definition string_file_request : HeroImages.NextRequest :=
  {| HeroImages.form := Some [("file", EString "photo.png")] |}.

Definition unreadable_request : HeroImages.NextRequest :=
  {| HeroImages.form := None |}.

Definition page : Download.Document :=
  {| Download.body := [0; 1; 2]; Download.created := 3; Download.clicked := [] |}.

(** An upload request with the given text in field [display_order]. *)
Definition ordered_request (display_order : string) : HeroImages.NextRequest :=
  {| HeroImages.form :=
       Some [("file", EFile Sample.png); ("display_order", EString display_order)] |}.

Fixpoint copies (n : nat) (c : ascii) : string :=
  match n with
  | O => EmptyString
  | S k => String c (copies k c)
  end.

Definition four_hundred_nines : string := copies 400 "9".

(** U+00A0 in UTF-8. *)
Definition no_break_space : string :=
  String (ascii_of_N 194) (String (ascii_of_N 160) EmptyString).

(** Integers around the cases of rounding to a double: small ones, the
    neighbours of 2^53, ties and near-ties further up, and the neighbours
    of the largest double. *)
Definition integers : list Z :=
  [0; 1; -1; 3; -7; 2 ^ 52; 2 ^ 53 - 1; 2 ^ 53; 2 ^ 53 + 1; 2 ^ 53 + 2; 2 ^ 53 + 3;
   - (2 ^ 53 + 1); - (2 ^ 53 + 3); 2 ^ 54 + 2; 2 ^ 54 + 6; 2 ^ 54 + 7; 2 ^ 60 + 129;
   2 ^ 60 + 128; 2 ^ 60 + 384; 10 ^ 22; 10 ^ 23; - 10 ^ 30; 3 ^ 200; 2 ^ 1023;
   2 ^ 1024 - 2 ^ 971; 2 ^ 1024 - 2 ^ 970 - 1; 2 ^ 1024 - 2 ^ 970;
   - (2 ^ 1024 - 2 ^ 970); 2 ^ 1024; 10 ^ 400; - 10 ^ 400]%Z.

End Scenario.

(* ================================================================== *)
(** * Properties *)

(** ** Built-ins *)

Section Builtins.
Import Contract.

Lemma split_not_nil (sep : ascii) (s : string) : JS.split sep s <> [].
Proof.
  destruct s as [| c s]; cbn; [discriminate|].
  destruct (Ascii.eqb c sep); [discriminate|].
  destruct (JS.split sep s); discriminate.
Qed.

Lemma split_no_dot (s : string) :
  has_dot s = false -> JS.split "." s = [s].
Proof.
  induction s as [| c s IH]; cbn; intros H; [reflexivity|].
  apply orb_false_iff in H. destruct H as [Hc Hs].
  rewrite Hc, (IH Hs). reflexivity.
Qed.

Lemma split_has_dot (s : string) :
  has_dot s = true -> exists a b l, JS.split "." s = a :: b :: l.
Proof.
  induction s as [| c s IH]; cbn; [discriminate|].
  destruct (Ascii.eqb c ".") eqn:Hc; cbn; intros H.
  - destruct (JS.split "." s) as [| x l] eqn:E.
    + now destruct (split_not_nil "." s).
    + now exists EmptyString, x, l.
  - destruct (IH H) as (a & b & l & ->). now exists (String c a), b, l.
Qed.

(** [name.split('.').pop()] is the segment after the last dot; it is never
    [undefined]. *)
Lemma pop_split_after_last_dot (s : string) :
  JS.pop (JS.split "." s) = Some (after_last_dot s).
Proof.
  induction s as [| c s IH]; [reflexivity|].
  cbn [JS.split after_last_dot].
  destruct (has_dot s) eqn:Hd.
  - destruct (split_has_dot s Hd) as (a & b & l & E).
    rewrite E in *. now destruct (Ascii.eqb c ".").
  - rewrite (split_no_dot s Hd). now destruct (Ascii.eqb c ".").
Qed.

(** [after_last_dot] does what its name says on a name with a dot. *)
Lemma after_last_dot_spec (pre ext : string) :
  has_dot ext = false -> after_last_dot (pre ++ String "." ext) = ext.
Proof.
  intros H. induction pre as [| c pre IH]; cbn.
  - now rewrite H.
  - assert (Hd : has_dot (pre ++ String "." ext) = true).
    { clear IH. induction pre as [| d pre IHp]; cbn; [reflexivity|].
      rewrite IHp. apply orb_true_r. }
    now rewrite Hd.
Qed.

Lemma endsWith_refl (s : string) : JS.endsWith s s = true.
Proof.
  destruct s; cbn; [reflexivity|].
  now rewrite Ascii.eqb_refl, String.eqb_refl.
Qed.

Lemma endsWith_append (pre s : string) : JS.endsWith (pre ++ s) s = true.
Proof.
  induction pre as [| c pre IH]; cbn [append].
  - apply endsWith_refl.
  - cbn [JS.endsWith]. rewrite IH. apply orb_true_r.
Qed.

Lemma endsWith_longer (pre s suffix : string) :
  JS.endsWith s suffix = true -> JS.endsWith (pre ++ s) suffix = true.
Proof.
  intros H. induction pre as [| c pre IH]; cbn [append]; [exact H|].
  cbn [JS.endsWith]. rewrite IH. apply orb_true_r.
Qed.

(** The digits of the contract are the characters [parseInt] reads as
    digits below the radix. *)
Lemma decimal_digit_value (c : ascii) :
  is_decimal_digit c
  = match JS.digit_value c with Some d => (d <? 10)%Z | None => false end.
Proof. destruct c as [[] [] [] [] [] [] [] []]; reflexivity. Qed.

Lemma hexadecimal_digit_value (c : ascii) :
  is_hexadecimal_digit c
  = match JS.digit_value c with Some d => (d <? 16)%Z | None => false end.
Proof. destruct c as [[] [] [] [] [] [] [] []]; reflexivity. Qed.

Lemma digit_value_lower (c : ascii) :
  JS.digit_value (JS.lower_char c) = JS.digit_value c.
Proof. destruct c as [[] [] [] [] [] [] [] []]; reflexivity. Qed.

Lemma digits_lower (R : Z) (s : string) (acc : option Z) :
  JS.digits R (JS.toLowerCase s) acc = JS.digits R s acc.
Proof.
  revert acc. induction s as [| c s IH]; intros acc; [reflexivity|].
  cbn [JS.toLowerCase JS.digits]. rewrite digit_value_lower.
  destruct (JS.digit_value c) as [d|]; [|reflexivity].
  destruct (d <? R)%Z; [apply IH | reflexivity].
Qed.

(** Only the leading digits of a text are read. *)
Lemma digits_leading (R : Z) (digit : ascii -> bool) (s : string) (acc : option Z) :
  (forall c, digit c = match JS.digit_value c with Some d => (d <? R)%Z | None => false end) ->
  JS.digits R s acc = JS.digits R (leading digit s) acc.
Proof.
  intros Hd. revert acc. induction s as [| c s IH]; intros acc; [reflexivity|].
  cbn [leading]. rewrite Hd. cbn [JS.digits].
  destruct (JS.digit_value c) as [d|] eqn:Ec; [|reflexivity].
  destruct (d <? R)%Z eqn:Ed; [|reflexivity].
  cbn [JS.digits]. rewrite Ec, Ed. apply IH.
Qed.

Lemma digits_step (R : Z) (c : ascii) (s : string) (acc : option Z) (k : Z) :
  JS.digit_value c = Some k ->
  (k <? R)%Z = true ->
  JS.digits R (String c s) acc
  = JS.digits R s (Some (match acc with Some a => a * R + k | None => k end)%Z).
Proof. intros Hc Hk. cbn [JS.digits]. now rewrite Hc, Hk. Qed.

Ltac read_digit :=
  cbn [NilEmpty.string_of_uint Pos.of_uint_acc Pos.of_uint
       HexadecimalString.NilEmpty.string_of_uint Pos.of_hex_uint_acc Pos.of_hex_uint];
  match goal with
  | |- context [JS.digits ?R (String ?c ?s) ?acc] =>
      let v := eval vm_compute in (JS.digit_value c) in
      match v with
      | Some ?k => rewrite (digits_step R c s acc k eq_refl eq_refl)
      end
  end.

Lemma digits_acc (d : Decimal.uint) (a : positive) :
  JS.digits 10 (NilEmpty.string_of_uint d) (Some (Zpos a))
  = Some (Zpos (Pos.of_uint_acc d a)).
Proof.
  revert a. induction d; intros a; [reflexivity | ..];
    (read_digit; rewrite <- IHd; do 2 f_equal; lia).
Qed.

Lemma digits_zero_acc (d : Decimal.uint) :
  JS.digits 10 (NilEmpty.string_of_uint d) (Some 0%Z) = Some (Z.of_N (Pos.of_uint d)).
Proof.
  induction d; [reflexivity | ..]; read_digit;
    [exact IHd | apply digits_acc ..].
Qed.

Lemma digits_of_uint (d : Decimal.uint) :
  d <> Decimal.Nil ->
  JS.digits 10 (NilEmpty.string_of_uint d) None = Some (Z.of_uint d).
Proof.
  unfold Z.of_uint.
  destruct d; intros Hd; [congruence | ..]; read_digit;
    [apply digits_zero_acc | apply digits_acc ..].
Qed.

Lemma hex_digits_acc (d : Hexadecimal.uint) (a : positive) :
  JS.digits 16 (HexadecimalString.NilEmpty.string_of_uint d) (Some (Zpos a))
  = Some (Zpos (Pos.of_hex_uint_acc d a)).
Proof.
  revert a. induction d; intros a; [reflexivity | ..];
    (read_digit; rewrite <- IHd; do 2 f_equal; lia).
Qed.

Lemma hex_digits_zero_acc (d : Hexadecimal.uint) :
  JS.digits 16 (HexadecimalString.NilEmpty.string_of_uint d) (Some 0%Z)
  = Some (Z.of_N (Pos.of_hex_uint d)).
Proof.
  induction d; [reflexivity | ..]; read_digit;
    [exact IHd | apply hex_digits_acc ..].
Qed.

Lemma digits_of_hex_uint (d : Hexadecimal.uint) :
  d <> Hexadecimal.Nil ->
  JS.digits 16 (HexadecimalString.NilEmpty.string_of_uint d) None = Some (Z.of_hex_uint d).
Proof.
  unfold Z.of_hex_uint.
  destruct d; intros Hd; [congruence | ..]; read_digit;
    [apply hex_digits_zero_acc | apply hex_digits_acc ..].
Qed.

(** A run of decimal digits is a numeral of the Standard Library. *)
Lemma leading_decimal_numeral (s : string) :
  exists d, NilEmpty.uint_of_string (leading is_decimal_digit s) = Some d.
Proof.
  induction s as [| c s [d IH]]; [now exists Decimal.Nil|].
  cbn [leading]. destruct (is_decimal_digit c) eqn:Ec; [|now exists Decimal.Nil].
  cbn [NilEmpty.uint_of_string]. rewrite IH.
  destruct c as [[] [] [] [] [] [] [] []]; try discriminate Ec; cbn; eauto.
Qed.

Lemma leading_hexadecimal_numeral (s : string) :
  exists d, HexadecimalString.NilEmpty.uint_of_string
              (JS.toLowerCase (leading is_hexadecimal_digit s)) = Some d.
Proof.
  induction s as [| c s [d IH]]; [now exists Hexadecimal.Nil|].
  cbn [leading]. destruct (is_hexadecimal_digit c) eqn:Ec; [|now exists Hexadecimal.Nil].
  cbn [JS.toLowerCase HexadecimalString.NilEmpty.uint_of_string]. rewrite IH.
  destruct c as [[] [] [] [] [] [] [] []]; try discriminate Ec; cbn; eauto.
Qed.

(** The digits [parseInt] reads in radix 10 are the numeral the contract
    reads, with the same value. *)
Lemma digits_decimal (s : string) : JS.digits 10 s None = decimal s.
Proof.
  rewrite (digits_leading 10 is_decimal_digit) by apply decimal_digit_value.
  unfold decimal. destruct (leading_decimal_numeral s) as [d Hd].
  revert Hd. destruct (leading is_decimal_digit s) as [| c r]; [reflexivity|].
  intros Hd. rewrite Hd. apply NilEmpty.sus in Hd.
  rewrite <- Hd. apply digits_of_uint. intros ->. discriminate Hd.
Qed.

Lemma digits_hexadecimal (s : string) : JS.digits 16 s None = hexadecimal s.
Proof.
  rewrite (digits_leading 16 is_hexadecimal_digit) by apply hexadecimal_digit_value.
  unfold hexadecimal. destruct (leading_hexadecimal_numeral s) as [d Hd].
  rewrite <- digits_lower.
  revert Hd. destruct (leading is_hexadecimal_digit s) as [| c r]; [reflexivity|].
  intros Hd. rewrite Hd. apply HexadecimalString.NilEmpty.sus in Hd.
  rewrite <- Hd. apply digits_of_hex_uint. intros ->. discriminate Hd.
Qed.


(** The white space of the contract, a table of code points, is the white
    space [trimStart] tells by its bytes. *)
Lemma white_space_prefix_bytes (c1 : ascii) (s1 : string) :
  white_space_prefix (String c1 s1)
  = if JS.is_white_space c1 then Some (String c1 EmptyString)
    else
      match s1 with
      | EmptyString => None
      | String c2 s2 =>
          if JS.is_white_space2 c1 c2 then Some (String c1 (String c2 EmptyString))
          else
            match s2 with
            | EmptyString => None
            | String c3 s3 =>
                if JS.is_white_space3 c1 c2 c3
                then Some (String c1 (String c2 (String c3 EmptyString)))
                else None
            end
      end.
Proof.
  unfold white_space_prefix.
  let texts := eval vm_compute in (map utf8 white_space) in
  change (map utf8 white_space) with texts.
  destruct c1 as [[] [] [] [] [] [] [] []];
    (destruct s1 as [| c2 s2]; [reflexivity|]);
    try (destruct s2 as [| c3 s3]; reflexivity);
    destruct c2 as [[] [] [] [] [] [] [] []]; try reflexivity;
    (destruct s2 as [| c3 s3]; [reflexivity|]); try reflexivity;
    destruct c3 as [[] [] [] [] [] [] [] []]; reflexivity.
Qed.

Lemma skip_trimStart (fuel : nat) (s : string) :
  (String.length s <= fuel)%nat -> skip fuel s = JS.trimStart s.
Proof.
  revert s. induction fuel as [| k IH]; intros s Hlen.
  - destruct s; [reflexivity | cbn in Hlen; lia].
  - destruct s as [| c1 s1]; [reflexivity|].
    cbn [skip]. rewrite white_space_prefix_bytes. cbn [JS.trimStart String.length] in *.
    destruct (JS.is_white_space c1); [apply IH; lia|].
    destruct s1 as [| c2 s2]; [reflexivity|]. cbn [String.length] in Hlen.
    destruct (JS.is_white_space2 c1 c2); [apply IH; lia|].
    destruct s2 as [| c3 s3]; [reflexivity|]. cbn [String.length] in Hlen.
    destruct (JS.is_white_space3 c1 c2 c3); [apply IH; lia | reflexivity].
Qed.

Lemma skip_white_space_trimStart (s : string) : skip_white_space s = JS.trimStart s.
Proof. apply skip_trimStart. lia. Qed.

(** The sign and the radix prefix, as [parseInt] takes them off the text. *)
Lemma sign_split (s : string) :
  match s with
  | String "-" r => ((-1)%Z, r)
  | String "+" r => (1%Z, r)
  | _ => (1%Z, s)
  end
  = if String.prefix "-" s then ((-1)%Z, drop 1 s)
    else if String.prefix "+" s then (1%Z, drop 1 s) else (1%Z, s).
Proof.
  destruct s as [| c r]; [reflexivity|].
  destruct c as [[] [] [] [] [] [] [] []]; try reflexivity; now destruct r.
Qed.

Lemma radix_split (s : string) :
  match s with
  | String "0" (String "x" r) => (16%Z, r)
  | String "0" (String "X" r) => (16%Z, r)
  | _ => (10%Z, s)
  end
  = if String.prefix "0x" s || String.prefix "0X" s then (16%Z, drop 2 s) else (10%Z, s).
Proof.
  destruct s as [| c r]; [reflexivity|].
  destruct c as [[] [] [] [] [] [] [] []]; try reflexivity.
  destruct r as [| x r]; [reflexivity|].
  destruct x as [[] [] [] [] [] [] [] []]; try reflexivity; now destruct r.
Qed.

Lemma or_zero_Number_value (x : Z) :
  JS.or_zero (JS.Number_value x) = JS.Number_value x.
Proof.
  unfold JS.Number_value. destruct (Z.abs x <? 2 ^ 53)%Z; [reflexivity|].
  now destruct (2 ^ 1024 <=? _)%Z.
Qed.

(** [parseInt(s) || 0] is the integer the text starts with, as a Number, and
    0 where it starts with none. *)
Lemma parseInt_or_zero (s : string) :
  JS.or_zero (JS.parseInt s)
  = match integer_parse s with
    | Some n => JS.Number_value n
    | None => JS.Finite 0
    end.
Proof.
  unfold JS.parseInt, integer_parse.
  rewrite skip_white_space_trimStart, sign_split.
  assert (Hmag : forall sign t,
    (sign = 1 \/ sign = -1)%Z ->
    JS.or_zero
      (let '(R, s3) :=
         match t with
         | String "0" (String "x" r) => (16%Z, r)
         | String "0" (String "X" r) => (16%Z, r)
         | _ => (10%Z, t)
         end in
       match JS.digits R s3 None with
       | None => JS.NaN
       | Some mathInt =>
           if (mathInt =? 0)%Z then (if (sign <? 0)%Z then JS.NegZero else JS.Finite 0)
           else JS.Number_value (sign * mathInt)
       end)
    = match option_map (Z.mul sign) (unsigned t) with
      | Some n => JS.Number_value n
      | None => JS.Finite 0
      end).
  { intros sign t Hs. rewrite radix_split. unfold unsigned.
    assert (Hv : forall v : option Z,
       JS.or_zero match v with
                  | None => JS.NaN
                  | Some mathInt =>
                      if (mathInt =? 0)%Z
                      then (if (sign <? 0)%Z then JS.NegZero else JS.Finite 0)
                      else JS.Number_value (sign * mathInt)
                  end
       = match option_map (Z.mul sign) v with
         | Some n => JS.Number_value n
         | None => JS.Finite 0
         end).
    { intros [v|]; [|reflexivity]. cbn [option_map].
      destruct (Z.eqb_spec v 0) as [-> | Hv].
      - rewrite Z.mul_0_r. now destruct (sign <? 0)%Z.
      - apply or_zero_Number_value. }
    destruct (String.prefix "0x" t || String.prefix "0X" t).
    - rewrite digits_hexadecimal. apply Hv.
    - rewrite digits_decimal. apply Hv. }
  destruct (String.prefix "-" (JS.trimStart s)).
  - rewrite Hmag by auto. destruct (unsigned _) as [v|]; [|reflexivity].
    cbn [option_map]. now replace (-1 * v)%Z with (- v)%Z by lia.
  - assert (Hone : forall t, option_map (Z.mul 1) (unsigned t) = unsigned t).
    { intros t. destruct (unsigned t) as [v|]; [|reflexivity].
      cbn [option_map]. f_equal. lia. }
    destruct (String.prefix "+" (JS.trimStart s)); rewrite Hmag, Hone by auto; reflexivity.
Qed.


(** The decimal notation of an integer parses as that integer. *)
Lemma trimStart_decimal_digit (c : ascii) (s : string) :
  is_decimal_digit c = true -> JS.trimStart (String c s) = String c s.
Proof.
  intros Hc.
  destruct c as [[] [] [] [] [] [] [] []]; try discriminate Hc;
    destruct s as [| c2 [| c3 s]]; reflexivity.
Qed.

Lemma leading_string_of_uint (d : Decimal.uint) :
  leading is_decimal_digit (NilEmpty.string_of_uint d) = NilEmpty.string_of_uint d.
Proof. induction d; cbn; congruence. Qed.

Lemma integer_parse_of_uint (d : Decimal.uint) :
  d <> Decimal.Nil ->
  integer_parse (NilEmpty.string_of_uint d) = Some (Z.of_uint d)
  /\ integer_parse (String "-" (NilEmpty.string_of_uint d)) = Some (- Z.of_uint d)%Z.
Proof.
  intros Hd.
  assert (Hdec : decimal (NilEmpty.string_of_uint d) = Some (Z.of_uint d)).
  { unfold decimal. rewrite leading_string_of_uint.
    pose proof (NilEmpty.usu d) as Hu.
    destruct d; [congruence | ..];
      (cbn [NilEmpty.string_of_uint] in *; rewrite Hu; reflexivity). }
  assert (Hun : unsigned (NilEmpty.string_of_uint d) = Some (Z.of_uint d)).
  { unfold unsigned. rewrite <- Hdec.
    destruct d as [| d | d | d | d | d | d | d | d | d | d]; try reflexivity;
      destruct d; reflexivity. }
  split.
  - unfold integer_parse. rewrite skip_white_space_trimStart.
    destruct d; [congruence | ..];
      (cbn [NilEmpty.string_of_uint] in *; rewrite trimStart_decimal_digit by reflexivity;
       exact Hun).
  - unfold integer_parse. rewrite skip_white_space_trimStart.
    replace (JS.trimStart (String "-" (NilEmpty.string_of_uint d)))
      with (String "-" (NilEmpty.string_of_uint d)).
    + replace (String.prefix "-" (String "-" (NilEmpty.string_of_uint d))) with true
        by now destruct (NilEmpty.string_of_uint d).
      cbn [drop]. now rewrite Hun.
    + destruct (NilEmpty.string_of_uint d) as [| c2 [| c3 r]]; reflexivity.
Qed.

Lemma integer_parse_number_toString (z : Z) :
  integer_parse (JS.number_toString z) = Some z.
Proof.
  unfold JS.number_toString.
  destruct z as [| p | p]; [reflexivity | ..]; cbn [Z.to_int NilZero.string_of_int];
    pose proof (DecimalPos.Unsigned.to_uint_nonnil p) as Hn;
    pose proof (DecimalPos.Unsigned.of_to p) as Hp;
    unfold NilZero.string_of_uint;
    (destruct (Pos.to_uint p) eqn:E; [congruence | rewrite <- E in * ..]).
  all: first [ rewrite (proj1 (integer_parse_of_uint _ Hn))
             | rewrite (proj2 (integer_parse_of_uint _ Hn)) ];
    unfold Z.of_uint; rewrite Hp; reflexivity.
Qed.

(** [parseInt] reads back the decimal notation of every integer, as a
    Number. *)
Lemma parseInt_number_toString (z : Z) :
  JS.or_zero (JS.parseInt (JS.number_toString z)) = JS.Number_value z.
Proof. now rewrite parseInt_or_zero, integer_parse_number_toString. Qed.

(** Up to 2^53 in magnitude an integer is its own Number. *)
Lemma Number_value_safe (x : Z) :
  (Z.abs x <= 2 ^ 53)%Z -> JS.Number_value x = JS.Finite x.
Proof.
  intros Hx. unfold JS.Number_value.
  destruct (Z.abs x <? 2 ^ 53)%Z eqn:E; [reflexivity|].
  apply Z.ltb_ge in E. assert (Ha : Z.abs x = (2 ^ 53)%Z) by lia.
  rewrite Ha. destruct x as [| q | q]; cbn [Z.abs] in Ha; [discriminate | ..];
    injection Ha as ->; reflexivity.
Qed.

End Builtins.

(** ** Rounding an integer to a double *)

Section Rounding.
Import Contract.
Local Open Scope Z_scope.

(** The frame of a magnitude of 2^53 or more: its 53 leading bits [q], the
    weight [P] of the last of them and the rest [r]. *)
Lemma leading_bits (a : Z) :
  2 ^ 53 <= a ->
  let e := Z.log2 a - 52 in
  let P := 2 ^ e in
  let q := a / P in
  let r := a mod P in
  1 <= e /\ P = 2 * 2 ^ (e - 1) /\ 0 < 2 ^ (e - 1)
  /\ a = q * P + r /\ 0 <= r < P /\ 2 ^ 52 <= q < 2 ^ 53
  /\ 2 ^ Z.log2 a = 2 ^ 52 * P.
Proof.
  intros Ha e P q r.
  assert (HL : 53 <= Z.log2 a) by (apply Z.log2_le_pow2; lia).
  assert (He : 1 <= e) by (unfold e; lia).
  assert (Hhalf : 0 < 2 ^ (e - 1)) by (apply Z.pow_pos_nonneg; lia).
  assert (HP : P = 2 * 2 ^ (e - 1)).
  { unfold P. replace e with (1 + (e - 1)) at 1 by lia.
    rewrite Z.pow_add_r by lia. reflexivity. }
  assert (Hdiv : a = q * P + r).
  { unfold q, r. rewrite Z.mul_comm. apply Z.div_mod. lia. }
  assert (Hr : 0 <= r < P) by (apply Z.mod_pos_bound; lia).
  assert (Hlog : 2 ^ Z.log2 a <= a < 2 ^ Z.succ (Z.log2 a)) by (apply Z.log2_spec; lia).
  assert (H52 : 2 ^ Z.log2 a = 2 ^ 52 * P).
  { unfold P, e. rewrite <- Z.pow_add_r by lia. f_equal. lia. }
  assert (H53 : 2 ^ Z.succ (Z.log2 a) = 2 ^ 53 * P).
  { unfold P, e. rewrite <- Z.pow_add_r by lia. f_equal. lia. }
  repeat split; try assumption; try lia.
  - rewrite H52 in Hlog. nia.
  - rewrite H53 in Hlog. nia.
Qed.

(** No number of 53 significant bits lies strictly between two neighbours
    [q * P] and [(q + 1) * P] of that frame. *)
Lemma no_double_between (q e m : Z) :
  1 <= e -> 2 ^ 52 <= q ->
  significant m ->
  m <= q * 2 ^ e \/ (q + 1) * 2 ^ e <= m.
Proof.
  intros He Hq (k & e' & He' & Hk & ->).
  assert (HP : 0 < 2 ^ e) by (apply Z.pow_pos_nonneg; lia).
  assert (HP' : 0 < 2 ^ e') by (apply Z.pow_pos_nonneg; lia).
  destruct (Z.le_gt_cases e e') as [Hle | Hlt].
  - replace e' with ((e' - e) + e) by lia. rewrite Z.pow_add_r by lia.
    assert (0 < 2 ^ (e' - e)) by (apply Z.pow_pos_nonneg; lia).
    destruct (Z.le_gt_cases (k * 2 ^ (e' - e)) q); [left | right]; nia.
  - left.
    assert (Hhalf : 2 ^ e' <= 2 ^ (e - 1)) by (apply Z.pow_le_mono_r; lia).
    assert (HPe : 2 ^ e = 2 * 2 ^ (e - 1)).
    { replace e with (1 + (e - 1)) at 1 by lia. rewrite Z.pow_add_r by lia. reflexivity. }
    assert (H53 : 2 ^ 53 = 2 * 2 ^ 52) by reflexivity.
    destruct (Z.le_gt_cases k 0); [nia|].
    assert (k * 2 ^ e' <= 2 ^ 53 * 2 ^ (e - 1)) by (apply Z.mul_le_mono_nonneg; lia).
    nia.
Qed.

Lemma significant_opp (m : Z) : significant m -> significant (- m).
Proof.
  intros (k & e & He & Hk & ->). exists (- k), e.
  split; [exact He|]. split; lia.
Qed.

(** Rounding a magnitude of 2^53 or more. *)
Lemma round_magnitude (a : Z) :
  2 ^ 53 <= a ->
  let e := Z.log2 a - 52 in
  let q := a / 2 ^ e in
  let r := a mod 2 ^ e in
  let half := 2 ^ (e - 1) in
  let q' := if (half <? r) || ((r =? half) && Z.odd q) then q + 1 else q in
  let m := q' * 2 ^ e in
  0 <= m
  /\ (2 ^ 1024 <= m -> 2 ^ 1024 - 2 ^ 970 <= a)
  /\ (m < 2 ^ 1024 ->
      a < 2 ^ 1024 - 2 ^ 970
      /\ significant m
      /\ forall m', significant m' ->
           Z.abs (a - m) <= Z.abs (a - m')
           /\ (Z.abs (a - m) = Z.abs (a - m') -> m' <> m ->
               Z.even q' = true /\ Z.even (m' / 2 ^ e) = false
               /\ Z.even (- m' / 2 ^ e) = false)).
Proof.
  intros Ha e q r half q' m.
  destruct (leading_bits a Ha) as (He & HP & Hhalf & Hdiv & Hr & Hq & HL).
  fold e in He, HP, Hhalf, Hdiv, Hr, Hq, HL.
  fold q in Hdiv, Hq. fold r in Hdiv, Hr. fold half in HP, Hhalf.
  set (P := 2 ^ e) in *.
  assert (Hlog : 2 ^ Z.log2 a <= a) by (apply Z.log2_spec; lia).
  (* the two ways to round *)
  assert (Hround : (q' = q + 1 /\ half <= r /\ (r = half -> Z.odd q = true))
                   \/ (q' = q /\ r <= half /\ (r = half -> Z.odd q = false))).
  { unfold q'. destruct (Z.ltb_spec half r) as [Hlt | Hge]; cbn [orb].
    - left. repeat split; lia.
    - destruct (Z.eqb_spec r half) as [Heq | Hne]; cbn [andb].
      + destruct (Z.odd q) eqn:Hodd.
        * left. repeat split; lia.
        * right. repeat split; lia.
      + right. repeat split; lia. }
  assert (Hm : m = q' * P) by reflexivity.
  assert (Hh : Z.log2 a < 1024 -> half <= 2 ^ 970).
  { intros HLlt. apply Z.pow_le_mono_r; unfold e; lia. }
  assert (Htop : Z.log2 a = 1023 -> P = 2 ^ 971 /\ half = 2 ^ 970).
  { intros HLeq. unfold P, half, e. rewrite HLeq. split; reflexivity. }
  assert (HPe : 2 ^ e = P) by reflexivity.
  clearbody m q' q r half P.
  split; [destruct Hround as [(-> & _) | (-> & _)]; nia|].
  split.
  - intros Hover.
    destruct (Z.le_gt_cases (2 ^ 1024) a) as [Hbig | Hsmall]; [lia|].
    assert (HLlt : Z.log2 a < 1024) by (apply Z.log2_lt_pow2; lia).
    specialize (Hh HLlt).
    destruct Hround as [(-> & Hr1 & _) | (-> & Hr1 & _)]; nia.
  - intros Hfin.
    assert (Hlo : q * P <= m) by (destruct Hround as [(-> & _) | (-> & _)]; nia).
    split; [|split].
    + destruct (Z.lt_ge_cases a (2 ^ 1024 - 2 ^ 970)) as [Hlt | Hge]; [exact Hlt|].
      exfalso.
      assert (HLlt : Z.log2 a < 1024).
      { apply (Z.pow_lt_mono_r_iff 2); [lia | lia | nia]. }
      assert (HLge : 1023 <= Z.log2 a) by (apply Z.log2_le_pow2; lia).
      destruct (Htop ltac:(lia)) as [HP971 Hh970].
      assert (Hq53 : q = 2 ^ 53 - 1) by lia.
      assert (Hodd : Z.odd q = true) by (rewrite Hq53; reflexivity).
      destruct Hround as [(-> & _) | (-> & Hr1 & Hr2)]; [lia|].
      assert (r = half) by lia. specialize (Hr2 H). congruence.
    + destruct (Z.eq_dec q' (2 ^ 53)) as [Heq | Hne].
      * exists (2 ^ 52), (e + 1). split; [lia|]. split; [reflexivity|].
        rewrite Hm, Heq, Z.pow_add_r, HPe by lia. lia.
      * exists q', e. split; [lia|]. split; [|now rewrite HPe].
        destruct Hround as [(-> & _) | (-> & _)]; lia.
    + intros m' Hm'.
      destruct (no_double_between q e m' He ltac:(lia) Hm') as [Hbelow | Habove];
        rewrite HPe in *;
        destruct Hround as [(-> & Hr1 & Hr2) | (-> & Hr1 & Hr2)];
        (split; [lia|]); intros Htie Hne.
      * assert (Hr3 : r = half) by lia.
        assert (Hm1 : m' = q * P) by lia.
        rewrite Hm1, <- Z.mul_opp_l, !Z.div_mul, Z.even_opp, Z.even_add,
          <- !Z.negb_odd, Hr2 by lia.
        repeat split; reflexivity.
      * lia.
      * lia.
      * assert (Hr3 : r = half) by lia.
        assert (Hm1 : m' = (q + 1) * P) by lia.
        rewrite Hm1, <- Z.mul_opp_l, !Z.div_mul, Z.even_opp, Z.even_add,
          <- !Z.negb_odd, Hr2 by lia.
        repeat split; reflexivity.
Qed.

(** What [JS.Number_value] returns: of two doubles equally near, the one of
    even last bit, the other one being odd there. *)
Lemma Number_value_cases (x : Z) :
  match JS.Number_value x with
  | JS.Finite m =>
      Z.abs x < 2 ^ 1024 - 2 ^ 970
      /\ representable m
      /\ forall m', representable m' ->
           Z.abs (x - m) <= Z.abs (x - m')
           /\ (Z.abs (x - m) = Z.abs (x - m') -> m' <> m ->
               Z.even (m / 2 ^ (Z.log2 (Z.abs x) - 52)) = true
               /\ Z.even (m' / 2 ^ (Z.log2 (Z.abs x) - 52)) = false)
  | JS.Infinity negative => 2 ^ 1024 - 2 ^ 970 <= Z.abs x /\ negative = (x <? 0)
  | JS.NaN | JS.NegZero => False
  end.
Proof.
  unfold JS.Number_value.
  destruct (Z.ltb_spec (Z.abs x) (2 ^ 53)) as [Hsmall | Hbig].
  - cbv beta iota. split; [|split].
    + assert (2 ^ 53 < 2 ^ 1024 - 2 ^ 970) by reflexivity. lia.
    + split.
      * exists x, 0. split; [lia|]. split; [exact Hsmall | cbn; lia].
      * assert (2 ^ 53 < 2 ^ 1024) by reflexivity. lia.
    + intros m' _. split; [lia|]. intros Htie Hne. lia.
  - destruct (round_magnitude (Z.abs x) Hbig) as (Hpos & Hover & Hfin).
    cbv zeta in Hpos, Hover, Hfin |- *.
    set (e := Z.log2 (Z.abs x) - 52) in *.
    set (q' := if (2 ^ (e - 1) <? Z.abs x mod 2 ^ e)
                  || ((Z.abs x mod 2 ^ e =? 2 ^ (e - 1)) && Z.odd (Z.abs x / 2 ^ e))
               then Z.abs x / 2 ^ e + 1 else Z.abs x / 2 ^ e) in *.
    assert (HP : 0 < 2 ^ e).
    { apply Z.pow_pos_nonneg; [lia|]. unfold e.
      assert (53 <= Z.log2 (Z.abs x)) by (apply Z.log2_le_pow2; lia). lia. }
    set (P := 2 ^ e) in *.
    destruct (Z.leb_spec (2 ^ 1024) (q' * P)) as [Hinf | Hlt]; cbv beta iota.
    + split; [apply Hover, Hinf | reflexivity].
    + destruct (Hfin Hlt) as (Hrange & Hsig & Hnear). clear Hover Hfin.
      assert (Hsgn : (x = Z.abs x /\ Z.sgn x = 1) \/ (x = - Z.abs x /\ Z.sgn x = -1)) by lia.
      split; [exact Hrange|]. split.
      * split.
        -- destruct Hsgn as [(_ & ->) | (_ & ->)].
           ++ now rewrite Z.mul_1_l.
           ++ replace (-1 * (q' * P)) with (- (q' * P)) by lia.
              now apply significant_opp.
        -- destruct Hsgn as [(_ & ->) | (_ & ->)]; lia.
      * intros m' [Hm' _].
        destruct Hsgn as [(Hx & Hs) | (Hx & Hs)]; rewrite Hs.
        -- destruct (Hnear m' Hm') as [Hle Htie]. rewrite <- Hx in Hle, Htie.
           rewrite Z.mul_1_l. split; [exact Hle|].
           intros H1 H2. change (2 ^ (Z.log2 (Z.abs x) - 52)) with P.
           rewrite Z.div_mul by lia.
           destruct (Htie H1 H2) as (Heven & Hodd & _). split; assumption.
        -- destruct (Hnear (- m') (significant_opp m' Hm')) as [Hle Htie].
           split; [lia|]. intros H1 H2.
           change (2 ^ (Z.log2 (Z.abs x) - 52)) with P.
           replace (-1 * (q' * P)) with ((- q') * P) by lia.
           destruct Htie as (Heven & _ & Hodd); [lia | lia |].
           rewrite Z.opp_involutive in Hodd.
           rewrite Z.div_mul, Z.even_opp by lia. split; assumption.
Qed.

(** [JS.Number_value] rounds to the nearest double, ties to even. *)
Lemma Number_value_nearest (x : Z) : nearest_double x (JS.Number_value x).
Proof.
  pose proof (Number_value_cases x) as H.
  destruct (JS.Number_value x) as [| b | | m]; cbn [nearest_double]; try exact H.
  destruct H as (Hrange & Hrep & Hnear). split; [exact Hrange|]. split; [exact Hrep|].
  intros m' Hm'. destruct (Hnear m' Hm') as [Hle Htie]. split; [exact Hle|].
  intros H1 H2. now apply Htie.
Qed.

(** The nearest double is one number only. *)
Lemma nearest_double_unique (x : Z) (v : JS.Number) :
  nearest_double x v -> v = JS.Number_value x.
Proof.
  intros Hv. pose proof (Number_value_cases x) as H.
  destruct (JS.Number_value x) as [| b0 | | m0]; try contradiction;
    destruct v as [| b | | m]; cbn [nearest_double] in Hv; try contradiction.
  - destruct Hv as [_ ->], H as [_ ->]. reflexivity.
  - lia.
  - lia.
  - destruct Hv as (_ & Hrep & Hnear), H as (_ & Hrep0 & Hnear0).
    destruct (Z.eq_dec m m0) as [-> | Hne]; [reflexivity | exfalso].
    destruct (Hnear m0 Hrep0) as [Hle Htie].
    destruct (Hnear0 m Hrep) as [Hle0 Htie0].
    assert (Heq : Z.abs (x - m) = Z.abs (x - m0)) by lia.
    specialize (Htie Heq ltac:(congruence)).
    destruct (Htie0 ltac:(lia) Hne) as [_ Hodd]. congruence.
Qed.


End Rounding.

(** ** Running a handler *)

Section Running.
Context {S : Type}.

Lemma exec_bind {A B : Type} (m : M S A) (k : A -> M S B) (s : S) :
  exec (bind m k) s =
  match eval m s with
  | Normal a => exec (k a) (exec m s)
  | Throw _ => exec m s
  end.
Proof.
  unfold exec, eval, bind. destruct (m s) as [[a | e] s']; reflexivity.
Qed.

Lemma exec_try_catch {A : Type} (body : M S A) (handler : string -> M S A) (s : S) :
  exec (try_catch body handler) s =
  match eval body s with
  | Normal _ => exec body s
  | Throw e => exec (handler e) (exec body s)
  end.
Proof.
  unfold exec, eval, try_catch. destruct (body s) as [[a | e] s']; reflexivity.
Qed.

(** The [finally] block is the last thing a [try] statement runs. *)
Lemma exec_try_finally {A : Type} (body : M S A) (fin : M S unit) (s : S) :
  exec (try_finally body fin) s = exec fin (exec body s).
Proof.
  unfold exec, try_finally. destruct (body s) as [r s']. cbn [snd].
  destruct (fin s') as [[u | e] s'']; reflexivity.
Qed.

Lemma unawaited_run (m : M S unit) (s : S) :
  unawaited m s = (Normal tt, exec m s).
Proof. reflexivity. Qed.

Section Keeps.
Context {X : Type} (f : S -> X).

Lemma keeps_ret {A : Type} (a : A) : keeps f (ret a).
Proof. intros s. reflexivity. Qed.

Lemma keeps_throw {A : Type} (e : string) : keeps f (@throw S A e).
Proof. intros s. reflexivity. Qed.

Lemma keeps_bind {A B : Type} (m : M S A) (k : A -> M S B) :
  keeps f m -> (forall a, keeps f (k a)) -> keeps f (bind m k).
Proof.
  intros Hm Hk s. rewrite exec_bind.
  destruct (eval m s); [rewrite Hk|]; apply Hm.
Qed.

Lemma keeps_try_catch {A : Type} (body : M S A) (handler : string -> M S A) :
  keeps f body -> (forall e, keeps f (handler e)) -> keeps f (try_catch body handler).
Proof.
  intros Hb Hh s. rewrite exec_try_catch.
  destruct (eval body s); [|rewrite Hh]; apply Hb.
Qed.

Lemma keeps_try_finally {A : Type} (body : M S A) (fin : M S unit) :
  keeps f body -> keeps f fin -> keeps f (try_finally body fin).
Proof.
  intros Hb Hf s. rewrite exec_try_finally, Hf. apply Hb.
Qed.

Lemma keeps_unawaited (m : M S unit) : keeps f m -> keeps f (unawaited m).
Proof. intros Hm s. apply Hm. Qed.

End Keeps.
End Running.

Create HintDb keeps discriminated.
#[global] Hint Resolve keeps_ret keeps_throw keeps_unawaited : keeps.
#[global] Hint Extern 2 (keeps _ (bind _ _)) => apply keeps_bind; [|intros ?] : keeps.
#[global] Hint Extern 2 (keeps _ (try_catch _ _)) => apply keeps_try_catch; [|intros ?] : keeps.
#[global] Hint Extern 2 (keeps _ (try_finally _ _)) => apply keeps_try_finally : keeps.
#[global] Hint Extern 3 (keeps _ (match ?x with _ => _ end)) => destruct x : keeps.

(** ** Requests *)

Section Requests.
Import Supabase.
Context {L D : Type}.
Variables (c : Call) (serve : World -> option D * World) (p : Proc L).

Lemma send_Fulfilled :
  next_fate (world p) = Fulfilled ->
  send c serve p =
    (Normal {| data := fst (serve (sent c (world p))); error := None |},
     set_world (snd (serve (sent c (world p)))) p).
Proof.
  intros H. unfold send. rewrite H.
  now destruct (serve _).
Qed.

Lemma send_Failed (msg : string) :
  next_fate (world p) = Failed msg ->
  send c serve p =
    (Normal {| data := None; error := Some msg |}, set_world (sent c (world p)) p).
Proof. intros H. unfold send. now rewrite H. Qed.

Lemma send_Rejected (e : string) :
  next_fate (world p) = Rejected e ->
  send c serve p = (Throw e, set_world (sent c (world p)) p).
Proof. intros H. unfold send. now rewrite H. Qed.

(** A request changes nothing of the handler's own state. *)
Lemma send_keeps_local {X : Type} (f : L -> X) :
  keeps (fun q : Proc L => f (local q)) (send c serve).
Proof.
  intros q. unfold exec, send.
  destruct (next_fate (world q)); [destruct (serve _)|..]; reflexivity.
Qed.

End Requests.

Lemma next_fate_sent (w : Supabase.World) (c : Supabase.Call) :
  Supabase.next_fate (Supabase.sent c w) = Supabase.second_fate w.
Proof.
  unfold Supabase.next_fate, Supabase.second_fate, Supabase.sent. cbn.
  now rewrite last_length.
Qed.

Lemma skipn_sent {A : Type} (l new : list A) :
  skipn (List.length l) (l ++ new) = new.
Proof. induction l; [reflexivity | assumption]. Qed.

(** Run the steps of a handler that do not wait for the environment:
    state updates, projections of updated records, and what the backend does
    with a request once its fate is known. *)
Ltac run_steps :=
  cbn [fst snd
       local world console set_local set_world set_console
       Supabase.objects Supabase.hero_images Supabase.qr_codes Supabase.next_id
       Supabase.clock Supabase.server_now Supabase.project_url
       Supabase.user_confirms Supabase.oracle Supabase.log
       Supabase.set_objects Supabase.set_hero_images Supabase.set_qr_codes
       Supabase.set_next_id Supabase.set_log Supabase.sent
       Supabase.data Supabase.error
       Supabase.serve_upload Supabase.serve_insert_hero_images
       Supabase.serve_insert_qr_codes Supabase.serve_select_qr_codes
       Supabase.serve_update_qr_codes Supabase.serve_delete_qr_codes
       ret throw console_error Date_now confirm storage_getPublicUrl
       QRCodeManager.qrCodes QRCodeManager.loading QRCodeManager.uploading
       QRCodeManager.selectedFile QRCodeManager.qrCodeName
       QRCodeManager.error QRCodeManager.success
       QRCodeManager.modify QRCodeManager.setQrCodes QRCodeManager.setLoading
       QRCodeManager.setUploading QRCodeManager.setSelectedFile
       QRCodeManager.setQrCodeName QRCodeManager.setError QRCodeManager.setSuccess
       QRCodeManager.non_null
       HeroImages.json HeroImages.as_File truthy negb] in *.

#[global] Hint Extern 1 (keeps _ (send _ _)) =>
  let q := fresh "q" in
  intros q; unfold exec, send; destruct (Supabase.next_fate (world q)); reflexivity : keeps.
#[global] Hint Extern 4 (keeps _ _) => solve [intros ?; reflexivity] : keeps.

(** ** The QR-code manager *)

Section Manager.
Import Supabase QRCodeManager.

(** *** Fetching the list *)

Lemma loadQRCodes_keeps_qr_codes :
  keeps (fun q : Proc State => qr_codes (world q)) loadQRCodes.
Proof. unfold loadQRCodes. auto 10 with keeps. Qed.

Lemma loadQRCodes_keeps_uploading :
  keeps (fun q : Proc State => uploading (local q)) loadQRCodes.
Proof. unfold loadQRCodes. auto 10 with keeps. Qed.

Lemma loadQRCodes_keeps_success :
  keeps (fun q : Proc State => success (local q)) loadQRCodes.
Proof. unfold loadQRCodes. auto 10 with keeps. Qed.

Lemma loadQRCodes_keeps_selectedFile :
  keeps (fun q : Proc State => selectedFile (local q)) loadQRCodes.
Proof. unfold loadQRCodes. auto 10 with keeps. Qed.

Lemma loadQRCodes_log (p : Proc State) :
  log (world (exec loadQRCodes p)) = (log (world p) ++ [select_qr_codes])%list.
Proof.
  unfold exec, loadQRCodes, try_finally, try_catch, bind, send. cbn.
  destruct (next_fate (world p)); reflexivity.
Qed.

Lemma loadQRCodes_loading (p : Proc State) :
  loading (local (exec loadQRCodes p)) = false.
Proof. unfold loadQRCodes. rewrite exec_try_finally. reflexivity. Qed.

(** A list fetch never completes by an exception. *)
Lemma loadQRCodes_never_throws (p : Proc State) :
  eval loadQRCodes p = Normal tt.
Proof.
  unfold eval, loadQRCodes, try_finally, try_catch, bind, send. cbn.
  destruct (next_fate (world p)); reflexivity.
Qed.

(** Running the dropped list fetch before or after [setUploading(false)]
    gives the same state: the order in which the two are modelled does not
    matter. *)
Lemma loadQRCodes_setUploading_commute (p : Proc State) :
  exec (setUploading false) (exec loadQRCodes p)
  = exec loadQRCodes (exec (setUploading false) p).
Proof.
  unfold exec, loadQRCodes, try_finally, try_catch, bind, send. cbn.
  destruct (next_fate (world p)); reflexivity.
Qed.

(** *** Toggling the active record *)

Lemma cleared_then_set_absent (i : string) (rows : list QRCodeData.t) :
  ~ In i (map QRCodeData.id rows) ->
  filter QRCodeData.is_active (Contract.cleared_then_set i rows) = [].
Proof.
  unfold Contract.cleared_then_set.
  induction rows as [| r rows IH]; intros Hn; [reflexivity|].
  cbn in *.
  destruct (String.eqb_spec (QRCodeData.id r) i) as [E | E].
  - exfalso. apply Hn. now left.
  - cbn. apply IH. intros Hin. apply Hn. now right.
Qed.

Lemma cleared_then_set_cons (i : string) (r : QRCodeData.t) (rows : list QRCodeData.t) :
  Contract.cleared_then_set i (r :: rows)
  = (if String.eqb (QRCodeData.id r) i
     then QRCodeData.set_is_active true r
     else QRCodeData.set_is_active false r)
    :: Contract.cleared_then_set i rows.
Proof.
  unfold Contract.cleared_then_set. cbn.
  now destruct (String.eqb (QRCodeData.id r) i).
Qed.

Lemma cleared_then_set_present (b : QRCodeData.t) (rows : list QRCodeData.t) :
  In b rows ->
  NoDup (map QRCodeData.id rows) ->
  filter QRCodeData.is_active (Contract.cleared_then_set (QRCodeData.id b) rows)
  = [QRCodeData.set_is_active true b].
Proof.
  induction rows as [| r rows IH]; intros Hin Hnd; [contradiction|].
  cbn in Hnd. apply NoDup_cons_iff in Hnd. destruct Hnd as [Hr Hnd].
  rewrite cleared_then_set_cons.
  destruct Hin as [-> | Hin].
  - rewrite String.eqb_refl. cbn.
    now rewrite (cleared_then_set_absent _ _ Hr).
  - assert (Hne : QRCodeData.id r <> QRCodeData.id b).
    { intros E. apply Hr. rewrite E. now apply in_map. }
    apply String.eqb_neq in Hne. rewrite Hne. cbn.
    now apply IH.
Qed.

(** C1.  Toggling activation on a row [b] of the table, run on its own with
    both writes carried out, leaves exactly one row with [is_active = true]:
    the row [b] (rows are identified by their id, the primary key).  Every
    other row, such as a previously active one, is inactive afterwards. *)
Theorem toggleActive_exactly_one_active (p : Proc State) (b : QRCodeData.t) :
  In b (qr_codes (world p)) ->
  NoDup (map QRCodeData.id (qr_codes (world p))) ->
  next_fate (world p) = Fulfilled ->
  second_fate (world p) = Fulfilled ->
  filter QRCodeData.is_active
         (qr_codes (world (exec (toggleActive (QRCodeData.id b)) p)))
  = [QRCodeData.set_is_active true b].
Proof.
  intros Hin Hnd H1 H2.
  unfold exec at 1. unfold toggleActive, try_catch, bind.
  rewrite send_Fulfilled by exact H1. run_steps.
  rewrite send_Fulfilled by (rewrite <- H2; apply next_fate_sent).
  run_steps. rewrite unawaited_run. run_steps.
  rewrite (loadQRCodes_keeps_qr_codes _). run_steps.
  now apply cleared_then_set_present.
Qed.

Lemma toggleActive_exactly_one_active_witness :
  filter QRCodeData.is_active
    (qr_codes (world (exec (toggleActive "b")
       (Sample.client Sample.ready [Sample.row_a; Sample.row_b] Sample.always_ok))))
  = [QRCodeData.set_is_active true Sample.row_b].
Proof.
  apply (toggleActive_exactly_one_active
           (Sample.client Sample.ready [Sample.row_a; Sample.row_b] Sample.always_ok)
           Sample.row_b).
  - cbn. right. left. reflexivity.
  - cbn. repeat constructor; cbn; intuition discriminate.
  - reflexivity.
  - reflexivity.
Defined.

(** C9.  The result of the first write (the clear of [is_active] on all
    rows) is never looked at: whatever it resolves to, success or error, the
    second write is sent right after it, and whenever the second write is
    carried out success is reported and the list is fetched again.  Only the
    result of the second write decides between the success and the error
    message. *)
Theorem toggleActive_first_write_unchecked (p : Proc State) (i : string) :
  (forall e, next_fate (world p) <> Rejected e) ->
  let p' := exec (toggleActive i) p in
  (exists rest,
      sent_since p p'
      = update_qr_codes false None :: update_qr_codes true (Some i) :: rest)
  /\ (second_fate (world p) = Fulfilled ->
      success (local p') = "QR code status updated!"
      /\ sent_since p p'
         = [update_qr_codes false None; update_qr_codes true (Some i); select_qr_codes])
  /\ (forall msg, second_fate (world p) = Failed msg ->
      QRCodeManager.error (local p') = "Failed to update QR code status"
      /\ success (local p') = success (local p)).
Proof.
  intros Hret p'.
  assert (Hfirst :
    exists r w1,
      send (update_qr_codes false None) (serve_update_qr_codes false None) p
      = (Normal r, set_world w1 p)
      /\ log w1 = (log (world p) ++ [update_qr_codes false None])%list
      /\ next_fate w1 = second_fate (world p)).
  { destruct (next_fate (world p)) as [| msg | e] eqn:H1.
    - eexists _, _. split; [apply send_Fulfilled; exact H1|].
      split; [reflexivity|]. cbn [snd serve_update_qr_codes].
      rewrite <- (next_fate_sent (world p) (update_qr_codes false None)). reflexivity.
    - eexists _, _. split; [apply send_Failed; exact H1|].
      split; [reflexivity | apply next_fate_sent].
    - now destruct (Hret e). }
  destruct Hfirst as (r & w1 & E1 & Hlog & Hnext).
  assert (Ep : p' = exec (toggleActive i) p) by reflexivity. clearbody p'.
  unfold exec, toggleActive, try_catch, bind in Ep. rewrite E1 in Ep.
  unfold sent_since.
  destruct (second_fate (world p)) as [| msg | e] eqn:H2.
  - rewrite send_Fulfilled in Ep by exact Hnext. run_steps.
    rewrite unawaited_run in Ep. run_steps. subst p'.
    rewrite (loadQRCodes_keeps_success _), loadQRCodes_log. run_steps.
    rewrite Hlog, <- !app_assoc. cbn [app]. rewrite skipn_sent.
    repeat split; eauto; discriminate.
  - rewrite send_Failed with (msg := msg) in Ep by exact Hnext.
    run_steps. subst p'. run_steps.
    rewrite Hlog, <- !app_assoc. cbn [app]. rewrite skipn_sent.
    repeat split; eauto; discriminate.
  - rewrite send_Rejected with (e := e) in Ep by exact Hnext.
    run_steps. subst p'. run_steps.
    rewrite Hlog, <- !app_assoc. cbn [app]. rewrite skipn_sent.
    repeat split; eauto; discriminate.
Qed.

Lemma toggleActive_first_write_unchecked_witness :
  success (local (exec (toggleActive "b")
    (Sample.client Sample.ready [Sample.row_a; Sample.row_b] Sample.first_fails)))
  = "QR code status updated!".
Proof.
  destruct (toggleActive_first_write_unchecked
              (Sample.client Sample.ready [Sample.row_a; Sample.row_b] Sample.first_fails)
              "b") as (_ & Hok & _).
  - intros e. discriminate.
  - apply Hok. reflexivity.
Defined.

(** X28.  When the first [await] rejects instead, control passes to the
    [catch] block: the error message is set, no second write is sent and the
    table is as before. *)
Lemma toggleActive_first_write_rejects (p : Proc State) (i e : string) :
  next_fate (world p) = Rejected e ->
  let p' := exec (toggleActive i) p in
  sent_since p p' = [update_qr_codes false None]
  /\ QRCodeManager.error (local p') = "Failed to update QR code status"
  /\ qr_codes (world p') = qr_codes (world p).
Proof.
  intros H1 p'.
  assert (Ep : p' = exec (toggleActive i) p) by reflexivity. clearbody p'.
  unfold exec, toggleActive, try_catch, bind in Ep.
  rewrite send_Rejected with (e := e) in Ep by exact H1.
  run_steps. subst p'. unfold sent_since. run_steps.
  rewrite skipn_sent. auto.
Qed.

(** X26.  When the first write is carried out and the second answers with
    an error, the effect of the first stays: no row is active. *)
Lemma toggleActive_second_write_fails (p : Proc State) (i msg : string) :
  next_fate (world p) = Fulfilled ->
  second_fate (world p) = Failed msg ->
  let p' := exec (toggleActive i) p in
  filter QRCodeData.is_active (qr_codes (world p')) = []
  /\ QRCodeManager.error (local p') = "Failed to update QR code status".
Proof.
  intros H1 H2 p'.
  assert (Ep : p' = exec (toggleActive i) p) by reflexivity. clearbody p'.
  unfold exec, toggleActive, try_catch, bind in Ep.
  rewrite send_Fulfilled in Ep by exact H1. run_steps.
  rewrite send_Failed with (msg := msg) in Ep by (rewrite <- H2; apply next_fate_sent).
  run_steps. subst p'. run_steps. split; [|reflexivity].
  induction (qr_codes (world p)) as [| r rows IH]; [reflexivity | exact IH].
Qed.

(** *** Choosing a file *)

(** C6, as the code has it.  When the chosen file is larger than 5 MiB or
    its declared type does not start with [image/], the handler does not
    store it: [selectedFile] keeps the value it had (unset if it was unset,
    an earlier accepted file otherwise), an error message is set, and
    nothing is sent: the environment is untouched. *)
Theorem handleFileSelect_rejects (e : ChangeEvent) (f : File.t) (p : Proc State) :
  first_file e = Some f ->
  (File.size f > 5 * 1024 * 1024)%Z \/ JS.startsWith (File.type f) "image/" = false ->
  let p' := exec (handleFileSelect e) p in
  selectedFile (local p') = selectedFile (local p)
  /\ (QRCodeManager.error (local p') = "File size must be less than 5MB"
      \/ QRCodeManager.error (local p') = "Please select an image file")
  /\ world p' = world p
  /\ sent_since p p' = [].
Proof.
  intros Hf Hbad p'. subst p'.
  unfold sent_since, exec, handleFileSelect. rewrite Hf.
  destruct (Z.gtb_spec (File.size f) (5 * 1024 * 1024)) as [Hbig | Hsmall].
  - cbn. rewrite skipn_all. auto.
  - destruct Hbad as [Hbig | Htype]; [lia|].
    rewrite Htype. cbn. rewrite skipn_all. auto.
Qed.

Lemma handleFileSelect_rejects_witness :
  selectedFile (local (exec (handleFileSelect {| target_files := Some [Sample.big] |})
                            Sample.mounted))
  = None.
Proof.
  apply (handleFileSelect_rejects {| target_files := Some [Sample.big] |} Sample.big
           Sample.mounted).
  - reflexivity.
  - left. reflexivity.
Defined.

(** C6, as worded, fails when a file had been accepted before: after the
    user chose [png] and then the oversized [big], [selectedFile] is not
    unset, it still holds [png]. *)
Lemma handleFileSelect_rejected_not_unset :
  (File.size Sample.big > 5 * 1024 * 1024)%Z
  /\ reachable Sample.chose_png
  /\ selectedFile
       (local (exec (handleFileSelect {| target_files := Some [Sample.big] |})
                    Sample.chose_png))
     = Some Sample.png.
Proof.
  split; [reflexivity|]. split; [|reflexivity].
  apply (reach_event Sample.mounted).
  apply (reach_event (Sample.client initial [] Sample.always_ok) Mount).
  apply reach_initial.
Qed.

(** *** Uploading a QR code *)

(** C7.  Without a selected file, or with a name that is blank after
    trimming, the upload sets an error message and sends nothing: no
    storage upload, no insert; the environment is untouched. *)
Theorem uploadQRCode_requires_file_and_name (render : State) (p : Proc State) :
  selectedFile render = None \/ JS.trim (qrCodeName render) = "" ->
  let p' := exec (uploadQRCode render) p in
  QRCodeManager.error (local p') = "Please select a file and enter a name"
  /\ world p' = world p
  /\ sent_since p p' = [].
Proof.
  intros Hpre p'. subst p'. unfold sent_since, exec, uploadQRCode.
  assert (Hc : negb (match selectedFile render with Some _ => true | None => false end)
               || negb (JS.truthy_string (JS.trim (qrCodeName render))) = true).
  { destruct Hpre as [-> | ->]; [reflexivity|]. apply orb_true_r. }
  rewrite Hc. cbn. rewrite skipn_all. auto.
Qed.

Lemma uploadQRCode_requires_file_and_name_witness :
  QRCodeManager.error (local (exec (uploadQRCode initial) Sample.mounted))
  = "Please select a file and enter a name".
Proof.
  apply (uploadQRCode_requires_file_and_name initial Sample.mounted).
  left. reflexivity.
Defined.

(** The test of line 158 passes exactly when a file is selected and the
    name is not blank after trimming. *)
Lemma upload_precondition (render : State) (f : File.t) :
  selectedFile render = Some f ->
  JS.trim (qrCodeName render) <> "" ->
  negb (match selectedFile render with Some _ => true | None => false end)
  || negb (JS.truthy_string (JS.trim (qrCodeName render))) = false.
Proof.
  intros -> Hname. destruct (JS.trim (qrCodeName render)); [congruence | reflexivity].
Qed.

(** C4.  When a file is selected, the name is not blank, and the storage
    upload and the insert are both carried out, exactly one row is added to
    table [qr_codes], and its [is_active] is true if and only if the list
    [qrCodes] held by the component (the one the handler's render saw) is
    empty. *)
Theorem uploadQRCode_active_iff_list_empty
    (render : State) (f : File.t) (p : Proc State) :
  selectedFile render = Some f ->
  JS.trim (qrCodeName render) <> "" ->
  next_fate (world p) = Fulfilled ->
  second_fate (world p) = Fulfilled ->
  let p' := exec (uploadQRCode render) p in
  exists row,
    qr_codes (world p') = (qr_codes (world p) ++ [row])%list
    /\ QRCodeData.name row = JS.trim (qrCodeName render)
    /\ (QRCodeData.is_active row = true <-> qrCodes render = []).
Proof.
  intros Hf Hname H1 H2 p'.
  assert (Ep : p' = exec (uploadQRCode render) p) by reflexivity. clearbody p'.
  unfold uploadQRCode in Ep. rewrite (upload_precondition render f Hf Hname) in Ep.
  unfold exec, try_finally, try_catch, bind in Ep. rewrite Hf in Ep.
  run_steps.
  rewrite send_Fulfilled in Ep by exact H1. run_steps.
  rewrite send_Fulfilled in Ep by (rewrite <- H2; apply next_fate_sent).
  run_steps. rewrite unawaited_run in Ep. run_steps.
  subst p'. run_steps.
  rewrite (loadQRCodes_keeps_qr_codes _). run_steps.
  eexists. split; [reflexivity|]. split; [reflexivity|].
  cbn [QRCodeData.is_active QRCodeData.stored QRCodeData.i_is_active].
  destruct (qrCodes render); cbn; split; congruence.
Qed.

Lemma uploadQRCode_active_iff_list_empty_witness :
  exists row,
    qr_codes (world (exec (uploadQRCode Sample.ready)
                          (Sample.client Sample.ready [] Sample.always_ok)))
    = [row]
    /\ QRCodeData.name row = "Payment QR"
    /\ (QRCodeData.is_active row = true <-> @nil QRCodeData.t = []).
Proof.
  apply (uploadQRCode_active_iff_list_empty Sample.ready Sample.png
           (Sample.client Sample.ready [] Sample.always_ok)).
  - reflexivity.
  - discriminate.
  - reflexivity.
  - reflexivity.
Defined.

(** *** The busy flags *)

Lemma uploadQRCode_uploading (render : State) (p : Proc State) :
  uploading (local (exec (uploadQRCode render) p))
  = if negb (match selectedFile render with Some _ => true | None => false end)
       || negb (JS.truthy_string (JS.trim (qrCodeName render)))
    then uploading (local p)
    else false.
Proof.
  unfold uploadQRCode. destruct (_ || _).
  - reflexivity.
  - rewrite exec_try_finally. reflexivity.
Qed.

Lemma deleteQRCode_keeps_uploading (id : string) :
  keeps (fun q : Proc State => uploading (local q)) (deleteQRCode id).
Proof.
  pose proof loadQRCodes_keeps_uploading.
  unfold deleteQRCode. auto 12 with keeps.
Qed.

Lemma toggleActive_keeps_uploading (id : string) :
  keeps (fun q : Proc State => uploading (local q)) (toggleActive id).
Proof.
  pose proof loadQRCodes_keeps_uploading.
  unfold toggleActive. auto 12 with keeps.
Qed.

Lemma handleFileSelect_keeps_uploading (e : ChangeEvent) :
  keeps (fun q : Proc State => uploading (local q)) (handleFileSelect e).
Proof.
  unfold handleFileSelect. destruct (first_file e) as [f|]; [|auto with keeps].
  destruct (_ >? _)%Z; [auto with keeps|].
  destruct (negb _); auto with keeps.
Qed.

(** Between two events the component is never marked as uploading. *)
Lemma reachable_not_uploading (p : Proc State) :
  reachable p -> uploading (local p) = false.
Proof.
  induction 1 as [w | p ev Hp IH | p w Hp IH]; [reflexivity | | exact IH].
  destruct ev; cbn [dispatch].
  - rewrite (keeps_unawaited _ _ loadQRCodes_keeps_uploading). exact IH.
  - exact IH.
  - rewrite handleFileSelect_keeps_uploading. exact IH.
  - change (exec (unawaited ?m) ?q) with (exec m q).
    rewrite uploadQRCode_uploading, IH. now destruct (_ || _).
  - rewrite (keeps_unawaited _ _ loadQRCodes_keeps_uploading). exact IH.
  - rewrite (keeps_unawaited _ _ (deleteQRCode_keeps_uploading id)). exact IH.
  - rewrite (keeps_unawaited _ _ (toggleActive_keeps_uploading id)). exact IH.
Qed.

(** C10.  When an upload has completed, the [uploading] flag is false:
    on every path that passed the precondition check (success, storage
    error, database error, thrown exception) because the [finally] block
    clears it, and on the path that failed the check because the component,
    handling its events one after the other, is not uploading when the
    handler starts.  When a list fetch has completed, the [loading] flag is
    false, whatever became of the request. *)
Theorem busy_flags_cleared :
  (forall (render : State) (f : File.t) (p : Proc State),
      selectedFile render = Some f ->
      JS.trim (qrCodeName render) <> "" ->
      uploading (local (exec (uploadQRCode render) p)) = false)
  /\ (forall (render : State) (p : Proc State),
      reachable p ->
      uploading (local (exec (uploadQRCode render) p)) = false)
  /\ (forall p : Proc State, loading (local (exec loadQRCodes p)) = false).
Proof.
  split; [|split].
  - intros render f p Hf Hname.
    now rewrite uploadQRCode_uploading, (upload_precondition render f Hf Hname).
  - intros render p Hp.
    rewrite uploadQRCode_uploading, (reachable_not_uploading p Hp).
    now destruct (_ || _).
  - exact loadQRCodes_loading.
Qed.

Lemma busy_flags_cleared_witness :
  uploading (local (exec (uploadQRCode Sample.ready)
                         (Sample.client Sample.ready [] Sample.first_fails))) = false
  /\ uploading (local (exec (uploadQRCode (local Sample.chose_png)) Sample.chose_png))
     = false.
Proof.
  destruct busy_flags_cleared as (Hchecked & Hreach & _). split.
  - apply (Hchecked Sample.ready Sample.png); [reflexivity | discriminate].
  - apply Hreach.
    apply (reach_event Sample.mounted).
    apply (reach_event (Sample.client initial [] Sample.always_ok) Mount).
    apply reach_initial.
Defined.

End Manager.

(** ** The hero-image upload handler *)

Section Upload.
Import Supabase HeroImages.

(** C2.  When the form data has no [file] field, the handler answers with
    status 400 and an error body, and does nothing else: nothing is sent to
    storage or to the database, the state after the call is the state
    before it. *)
Theorem POST_without_file (request : NextRequest) (formData : FormData) (p : Proc unit) :
  form request = Some formData ->
  get formData "file" = None ->
  eval (POST request) p
  = Normal {| status := 400; body := error_body "No file provided" |}
  /\ exec (POST request) p = p
  /\ sent_since p (exec (POST request) p) = [].
Proof.
  intros Hform Hfile.
  assert (E : POST request p
              = (Normal {| status := 400; body := error_body "No file provided" |}, p)).
  { unfold POST, try_catch, bind, request_formData. rewrite Hform. run_steps.
    rewrite Hfile. reflexivity. }
  unfold eval, exec, sent_since. rewrite E. cbn [fst snd].
  rewrite skipn_all. auto.
Qed.

Lemma POST_without_file_witness :
  eval (POST Sample.no_file_request) (Sample.server Sample.always_ok)
  = Normal {| status := 400; body := error_body "No file provided" |}
  /\ exec (POST Sample.no_file_request) (Sample.server Sample.always_ok)
     = Sample.server Sample.always_ok
  /\ sent_since (Sample.server Sample.always_ok)
                (exec (POST Sample.no_file_request) (Sample.server Sample.always_ok))
     = [].
Proof.
  apply (POST_without_file Sample.no_file_request [("title", EString "Summer")]);
    reflexivity.
Defined.

(** C3.  With a file present, when the storage upload answers with an
    error, the handler answers with status 500 and an error body; the upload
    is the only request it has sent, no insert follows, and table
    [hero_images] is as before. *)
Theorem POST_storage_error
    (request : NextRequest) (formData : FormData) (f : File.t) (msg : string)
    (p : Proc unit) :
  form request = Some formData ->
  get formData "file" = Some (EFile f) ->
  next_fate (world p) = Failed msg ->
  let p' := exec (POST request) p in
  eval (POST request) p
  = Normal {| status := 500; body := error_body "Failed to upload file" |}
  /\ (exists c, sent_since p p' = [c] /\ forall row, c <> insert_hero_images row)
  /\ hero_images (world p') = hero_images (world p).
Proof.
  intros Hform Hfile H1 p'.
  assert (Ep : p' = exec (POST request) p) by reflexivity. clearbody p'.
  unfold eval. unfold exec in Ep.
  unfold POST, try_catch, bind, request_formData in *. rewrite Hform in *.
  run_steps. rewrite Hfile in *. run_steps.
  rewrite send_Failed with (msg := msg) in * by exact H1.
  run_steps. subst p'. unfold sent_since. run_steps.
  rewrite skipn_sent. repeat split. eexists. split; [reflexivity | discriminate].
Qed.

Lemma POST_storage_error_witness :
  eval (POST Sample.upload_request) (Sample.server Sample.first_fails)
  = Normal {| status := 500; body := error_body "Failed to upload file" |}.
Proof.
  refine (proj1 (POST_storage_error Sample.upload_request
           [("title", EString "Summer"); ("file", EFile Sample.png);
            ("display_order", EString "3")]
           Sample.png "permission denied" (Sample.server Sample.first_fails) _ _ _));
    reflexivity.
Defined.

(** X29.  When the upload promise rejects instead, the [catch] block
    answers: status 500 as well, and again no insert. *)
Lemma POST_storage_rejects
    (request : NextRequest) (formData : FormData) (f : File.t) (e : string)
    (p : Proc unit) :
  form request = Some formData ->
  get formData "file" = Some (EFile f) ->
  next_fate (world p) = Rejected e ->
  let p' := exec (POST request) p in
  eval (POST request) p
  = Normal {| status := 500; body := error_body "Internal server error" |}
  /\ (exists c, sent_since p p' = [c] /\ forall row, c <> insert_hero_images row)
  /\ hero_images (world p') = hero_images (world p).
Proof.
  intros Hform Hfile H1 p'.
  assert (Ep : p' = exec (POST request) p) by reflexivity. clearbody p'.
  unfold eval. unfold exec in Ep.
  unfold POST, try_catch, bind, request_formData in *. rewrite Hform in *.
  run_steps. rewrite Hfile in *. run_steps.
  rewrite send_Rejected with (e := e) in * by exact H1.
  run_steps. subst p'. unfold sent_since. run_steps.
  rewrite skipn_sent. repeat split. eexists. split; [reflexivity | discriminate].
Qed.

(** C5.  With a file present, when the storage upload and the insert are
    both carried out, the handler answers with the success payload, whose
    [image] is the inserted row; its [file_name] is [hero-], the timestamp,
    a dot and the lower-cased extension of the uploaded file's name, so it
    ends with that extension.  The extension is the segment after the last
    dot of the name. *)
Theorem POST_file_name_extension
    (request : NextRequest) (formData : FormData) (f : File.t) (p : Proc unit) :
  form request = Some formData ->
  get formData "file" = Some (EFile f) ->
  next_fate (world p) = Fulfilled ->
  second_fate (world p) = Fulfilled ->
  exists image,
    eval (POST request) p
    = Normal {| status := 200;
                body := success_body (Some image) "Hero image uploaded successfully" |}
    /\ HeroImage.file_name image
       = "hero-" ++ JS.number_toString (clock (world p)) ++ "."
         ++ JS.toLowerCase (Contract.after_last_dot (File.name f))
    /\ JS.endsWith (HeroImage.file_name image)
                   (JS.toLowerCase (Contract.after_last_dot (File.name f))) = true.
Proof.
  intros Hform Hfile H1 H2.
  unfold eval, POST, try_catch, bind, request_formData. rewrite Hform.
  run_steps. rewrite Hfile. run_steps.
  rewrite send_Fulfilled by exact H1. run_steps.
  rewrite send_Fulfilled by (rewrite <- H2; apply next_fate_sent).
  run_steps. eexists. split; [reflexivity|].
  cbn [HeroImage.file_name HeroImage.stored HeroImage.i_file_name].
  rewrite pop_split_after_last_dot. cbn [option_map JS.template].
  split; [reflexivity|].
  do 2 apply endsWith_longer. apply endsWith_append.
Qed.

Lemma POST_file_name_extension_witness :
  exists image,
    eval (POST Sample.upload_request) (Sample.server Sample.always_ok)
    = Normal {| status := 200;
                body := success_body (Some image) "Hero image uploaded successfully" |}
    /\ HeroImage.file_name image = "hero-1700000000000.png"
    /\ JS.endsWith (HeroImage.file_name image) "png" = true.
Proof.
  exact (POST_file_name_extension Sample.upload_request
           [("title", EString "Summer"); ("file", EFile Sample.png);
            ("display_order", EString "3")]
           Sample.png (Sample.server Sample.always_ok)
           eq_refl eq_refl eq_refl eq_refl).
Defined.

(** The handler's [parseInt(...) || 0] is the display order of the
    contract: an absent field reads as the string [null] and a file as
    [[object File]], neither of which starts with an integer. *)
Lemma display_order_refines (formData : FormData) :
  JS.or_zero (JS.parseInt (ToString (get formData "display_order")))
  = Contract.display_order formData.
Proof.
  unfold Contract.display_order, Contract.integer_or_zero, Contract.integer_field.
  destruct (get formData "display_order") as [[s | f] |]; cbn [ToString];
    [| reflexivity ..].
  rewrite parseInt_or_zero. now destruct (Contract.integer_parse s).
Qed.

Lemma display_order_sent (formData : FormData) :
  let sent := JS.or_zero (JS.parseInt (ToString (get formData "display_order"))) in
  sent = Contract.display_order formData
  /\ Contract.nearest_double (Contract.integer_or_zero formData) sent
  /\ ((Z.abs (Contract.integer_or_zero formData) <= 2 ^ 53)%Z ->
      sent = JS.Finite (Contract.integer_or_zero formData)).
Proof.
  cbv zeta. rewrite display_order_refines. split; [reflexivity|].
  split; [apply Number_value_nearest | apply Number_value_safe].
Qed.

(** A field that holds the decimal notation of an integer gives that
    integer. *)
Lemma integer_or_zero_of_decimal (formData : FormData) (z : Z) :
  get formData "display_order" = Some (EString (JS.number_toString z)) ->
  Contract.integer_or_zero formData = z.
Proof.
  intros H. unfold Contract.integer_or_zero, Contract.integer_field. rewrite H.
  now rewrite integer_parse_number_toString.
Qed.

(** C8, amended.  Whatever the request, a row that the handler sends for
    insertion carries as [display_order] the integer parse of form field
    [display_order], and 0 when the field is absent or does not parse,
    rounded to the nearest double-precision number: the integer itself up
    to 2^53 in magnitude, an infinity from 2^1024 - 2^970 on; the row
    returned in a success payload carries that number as the request body
    holds it. *)
Theorem POST_display_order (request : NextRequest) (p : Proc unit) :
  (forall row,
      In (insert_hero_images row) (sent_since p (exec (POST request) p)) ->
      exists formData,
        form request = Some formData
        /\ HeroImage.i_display_order row = Contract.display_order formData
        /\ Contract.nearest_double (Contract.integer_or_zero formData)
             (HeroImage.i_display_order row)
        /\ ((Z.abs (Contract.integer_or_zero formData) <= 2 ^ 53)%Z ->
            HeroImage.i_display_order row
            = JS.Finite (Contract.integer_or_zero formData)))
  /\ (forall image message,
      eval (POST request) p
      = Normal {| status := 200; body := success_body (Some image) message |} ->
      exists formData,
        form request = Some formData
        /\ HeroImage.display_order image
           = JS.JSON_number (Contract.display_order formData)).
Proof.
  unfold eval, exec, sent_since.
  destruct (POST request p) as [r p'] eqn:E.
  unfold POST, try_catch, bind, request_formData in E.
  destruct (form request) as [formData|]; run_steps.
  2:{ inversion E; subst; clear E. run_steps. rewrite skipn_all.
      split; [contradiction | discriminate]. }
  destruct (get formData "file") as [[s | f] |] eqn:Hfile; run_steps.
  - destruct (JS.truthy_string s); run_steps;
      inversion E; subst; clear E; run_steps; rewrite skipn_all;
      (split; [contradiction | discriminate]).
  - destruct (next_fate (world p)) as [| msg | e] eqn:H1.
    + rewrite send_Fulfilled in E by exact H1. run_steps.
      destruct (second_fate (world p)) as [| msg | e] eqn:H2.
      * rewrite send_Fulfilled in E by (rewrite <- H2; apply next_fate_sent).
        run_steps. inversion E; subst; clear E. run_steps.
        rewrite <- app_assoc, skipn_sent. cbn [app]. split.
        -- intros row [Hrow | [Hrow | []]]; [discriminate|].
           inversion Hrow; subst; clear Hrow. exists formData.
           split; [reflexivity | apply display_order_sent].
        -- intros image message Himage. inversion Himage; subst; clear Himage.
           exists formData. split; [reflexivity|].
           rewrite <- display_order_refines. reflexivity.
      * rewrite send_Failed with (msg := msg) in E
          by (rewrite <- H2; apply next_fate_sent).
        run_steps. inversion E; subst; clear E. run_steps.
        rewrite <- app_assoc, skipn_sent. cbn [app]. split.
        -- intros row [Hrow | [Hrow | []]]; [discriminate|].
           inversion Hrow; subst; clear Hrow. exists formData.
           split; [reflexivity | apply display_order_sent].
        -- discriminate.
      * rewrite send_Rejected with (e := e) in E
          by (rewrite <- H2; apply next_fate_sent).
        run_steps. inversion E; subst; clear E. run_steps.
        rewrite <- app_assoc, skipn_sent. cbn [app]. split.
        -- intros row [Hrow | [Hrow | []]]; [discriminate|].
           inversion Hrow; subst; clear Hrow. exists formData.
           split; [reflexivity | apply display_order_sent].
        -- discriminate.
    + rewrite send_Failed with (msg := msg) in E by exact H1.
      run_steps. inversion E; subst; clear E. run_steps.
      rewrite skipn_sent. split; [|discriminate].
      intros row [Hrow | []]. discriminate.
    + rewrite send_Rejected with (e := e) in E by exact H1.
      run_steps. inversion E; subst; clear E. run_steps.
      rewrite skipn_sent. split; [|discriminate].
      intros row [Hrow | []]. discriminate.
  - inversion E; subst; clear E. run_steps. rewrite skipn_all.
    split; [contradiction | discriminate].
Qed.

Lemma POST_display_order_witness :
  (exists formData,
      form Sample.upload_request = Some formData
      /\ HeroImage.i_display_order Sample.sent_row = Contract.display_order formData
      /\ Contract.nearest_double (Contract.integer_or_zero formData)
           (HeroImage.i_display_order Sample.sent_row)
      /\ ((Z.abs (Contract.integer_or_zero formData) <= 2 ^ 53)%Z ->
          HeroImage.i_display_order Sample.sent_row
          = JS.Finite (Contract.integer_or_zero formData)))
  /\ (exists formData,
      form Sample.upload_request = Some formData
      /\ HeroImage.display_order Sample.stored_row
         = JS.JSON_number (Contract.display_order formData)).
Proof.
  destruct (POST_display_order Sample.upload_request (Sample.server Sample.always_ok))
    as [Hsent Hstored].
  split.
  - apply Hsent. vm_compute. right. left. reflexivity.
  - apply (Hstored Sample.stored_row "Hero image uploaded successfully").
    vm_compute. reflexivity.
Defined.

(** C8, as worded, fails beyond 2^53: the field [9007199254740993] is the
    notation of an integer, and the row sent for it carries
    9007199254740992. *)
Lemma POST_display_order_not_exact :
  exists formData row,
    form (Scenario.ordered_request "9007199254740993") = Some formData
    /\ Contract.integer_or_zero formData = 9007199254740993%Z
    /\ In (insert_hero_images row)
         (sent_since (Sample.server Sample.always_ok)
            (exec (POST (Scenario.ordered_request "9007199254740993"))
                  (Sample.server Sample.always_ok)))
    /\ HeroImage.i_display_order row = JS.Finite 9007199254740992
    /\ HeroImage.i_display_order row <> JS.Finite (Contract.integer_or_zero formData).
Proof.
  eexists. eexists.
  split; [reflexivity|].
  split; [vm_compute; reflexivity|].
  split; [vm_compute; right; left; reflexivity|].
  split; [vm_compute; reflexivity | vm_compute; discriminate].
Qed.

(** The model of [parseInt] on a few inputs. *)
Example parseInt_decimal : JS.parseInt "42" = JS.Finite 42.
Proof. reflexivity. Qed.

Example parseInt_leading_space_and_sign : JS.parseInt "  -7" = JS.Finite (-7).
Proof. reflexivity. Qed.

Example parseInt_numeric_prefix : JS.parseInt "12abc" = JS.Finite 12.
Proof. reflexivity. Qed.

Example parseInt_hexadecimal :
  JS.parseInt "0x1F" = JS.Finite 31 /\ JS.parseInt "0Xff" = JS.Finite 255
  /\ JS.parseInt "0x" = JS.NaN.
Proof. repeat split; reflexivity. Qed.

Example parseInt_not_a_number : JS.parseInt "abc" = JS.NaN /\ JS.parseInt "" = JS.NaN.
Proof. split; reflexivity. Qed.

Example parseInt_minus_zero :
  JS.parseInt "-0" = JS.NegZero /\ JS.or_zero (JS.parseInt "-0") = JS.Finite 0.
Proof. split; reflexivity. Qed.

(** Beyond 2^53 the nearest double is taken, the even one on a tie. *)
Example parseInt_beyond_safe_integers :
  JS.parseInt "9007199254740993" = JS.Finite 9007199254740992
  /\ JS.parseInt "9007199254740995" = JS.Finite 9007199254740996
  /\ JS.parseInt "-9007199254740993" = JS.Finite (-9007199254740992).
Proof. repeat split; vm_compute; reflexivity. Qed.

(** Four hundred nines are beyond the doubles: the row holds an infinity,
    which the request body carries as [null]. *)
Example parseInt_overflow :
  JS.or_zero (JS.parseInt Scenario.four_hundred_nines) = JS.Infinity false
  /\ JS.JSON_number (JS.Infinity false) = None.
Proof. split; vm_compute; reflexivity. Qed.

(** White space beyond ASCII is skipped and trimmed as well. *)
Example parseInt_no_break_space :
  JS.parseInt (Scenario.no_break_space ++ "5") = JS.Finite 5
  /\ JS.trim (" " ++ Scenario.no_break_space ++ "a b" ++ Scenario.no_break_space) = "a b"
  /\ JS.trim Scenario.no_break_space = "".
Proof. repeat split; vm_compute; reflexivity. Qed.

(** [JS.Number_value] agrees with the rounding of the Standard Library's
    floating-point model, here on integers around each of its cases. *)
Example Number_value_binary64 :
  map JS.Number_value Scenario.integers = map Contract.binary64 Scenario.integers.
Proof. vm_compute. reflexivity. Qed.

Example display_order_of_sample :
  Contract.display_order [("display_order", EString "3")] = JS.Finite 3
  /\ Contract.display_order [("display_order", EString "soon")] = JS.Finite 0
  /\ Contract.display_order [("title", EString "Summer")] = JS.Finite 0
  /\ Contract.display_order [("display_order", EFile Sample.png)] = JS.Finite 0.
Proof. repeat split; reflexivity. Qed.

End Upload.

(* ================================================================== *)
(** * Further properties of the code *)

(** Every path of [POST]: after this tactic each goal is about one path,
    with the answer and the state after it computed. *)
Ltac post_paths request p :=
  let r := fresh "r" in
  let p' := fresh "p'" in
  let E := fresh "E" in
  unfold eval, exec, sent_since;
  destruct (HeroImages.POST request p) as [r p'] eqn:E;
  unfold HeroImages.POST, try_catch, bind, HeroImages.request_formData in E;
  destruct (HeroImages.form request) as [fd0|] eqn:Hform0; run_steps;
  [ destruct (get fd0 "file") as [[s0 | f0] |] eqn:Hfile0; run_steps;
    [ destruct (JS.truthy_string s0) eqn:Hs0; run_steps
    | destruct (Supabase.next_fate (world p)) as [| m0 | e0] eqn:Hfate1;
      [ rewrite send_Fulfilled in E by exact Hfate1; run_steps;
        destruct (Supabase.second_fate (world p)) as [| m0 | e0] eqn:Hfate2;
        [ rewrite send_Fulfilled in E by (rewrite <- Hfate2; apply next_fate_sent)
        | rewrite send_Failed with (msg := m0) in E
            by (rewrite <- Hfate2; apply next_fate_sent)
        | rewrite send_Rejected with (e := e0) in E
            by (rewrite <- Hfate2; apply next_fate_sent) ]
      | rewrite send_Failed with (msg := m0) in E by exact Hfate1
      | rewrite send_Rejected with (e := e0) in E by exact Hfate1 ]
    | ]
  | ];
  run_steps; inversion E; subst; clear E; run_steps;
  rewrite <- ?app_assoc; cbn [app]; rewrite ?skipn_sent, ?skipn_all.

Section UploadPaths.
Import Supabase HeroImages.

(** X1.  The handler always answers: whatever the request and whatever
    becomes of the storage and database requests, it completes with a
    response and never by an exception; the status is 200, 400 or 500, and
    it is 200 exactly when the body is the success payload. *)
Theorem POST_always_answers (request : NextRequest) (p : Proc unit) :
  exists response,
    eval (POST request) p = Normal response
    /\ (status response = 200 \/ status response = 400 \/ status response = 500)%Z
    /\ (status response = 200%Z
        <-> exists image message, body response = success_body image message).
Proof.
  post_paths request p; eexists; (split; [reflexivity|]); cbn [status body json];
    (split; [auto|]);
    (split; [first [discriminate | eauto] | intros (? & ? & ?); first [discriminate | reflexivity]]).
Qed.

(** X2.  With a file present and the upload carried out, when the insert
    answers with an error the handler answers 500 with its own message; the
    uploaded object stays in the bucket (nothing removes it) and table
    [hero_images] has no row for it. *)
Theorem POST_insert_error_keeps_object
    (request : NextRequest) (formData : FormData) (f : File.t) (msg : string)
    (p : Proc unit) :
  form request = Some formData ->
  get formData "file" = Some (EFile f) ->
  next_fate (world p) = Fulfilled ->
  second_fate (world p) = Failed msg ->
  let p' := exec (POST request) p in
  eval (POST request) p
  = Normal {| status := 500; body := error_body "Failed to save metadata" |}
  /\ (exists key,
        objects (world p')
        = (objects (world p)
           ++ [{| bucket := "hero-images"; path := key; Supabase.body := f;
                  options := Some {| contentType := File.type f;
                                     cacheControl := "3600" |} |}])%list)
  /\ hero_images (world p') = hero_images (world p).
Proof.
  intros Hform' Hfile' H1' H2'. cbv zeta.
  post_paths request p; try congruence.
  assert (fd0 = formData) by congruence; subst fd0.
  assert (f0 = f) by congruence; subst f0.
  repeat split. eexists. reflexivity.
Qed.

Lemma POST_insert_error_keeps_object_witness :
  eval (POST Sample.upload_request) (Sample.server Scenario.second_fails)
  = Normal {| status := 500; body := error_body "Failed to save metadata" |}.
Proof.
  refine (proj1 (POST_insert_error_keeps_object Sample.upload_request
           [("title", EString "Summer"); ("file", EFile Sample.png);
            ("display_order", EString "3")]
           Sample.png "row violates policy" (Sample.server Scenario.second_fails)
           _ _ _ _));
    reflexivity.
Defined.

(** X3.  A request whose body cannot be read as form data, and a request
    whose [file] entry is a non-empty string instead of a file, both end in
    the [catch] block: status 500 with the generic message, and nothing is
    sent.  An empty string as [file] entry counts as no file: status 400. *)
Theorem POST_unusable_file_entry (request : NextRequest) (p : Proc unit) :
  (form request = None \/
   exists formData s,
     form request = Some formData /\ get formData "file" = Some (EString s)) ->
  let p' := exec (POST request) p in
  eval (POST request) p
  = Normal
      match form request with
      | Some formData =>
          match get formData "file" with
          | Some (EString EmptyString) =>
              {| status := 400; body := error_body "No file provided" |}
          | _ => {| status := 500; body := error_body "Internal server error" |}
          end
      | None => {| status := 500; body := error_body "Internal server error" |}
      end
  /\ world p' = world p
  /\ sent_since p p' = [].
Proof.
  intros Hbad. cbv zeta.
  post_paths request p;
    try (destruct Hbad as [Hbad | (fd & s' & Hfd & Hbad)]; congruence).
  - destruct s0; [discriminate | auto].
  - destruct s0; [auto | discriminate].
  - auto.
Qed.

Lemma POST_unusable_file_entry_witness :
  eval (POST Scenario.string_file_request) (Sample.server Sample.always_ok)
  = Normal {| status := 500; body := error_body "Internal server error" |}
  /\ eval (POST Scenario.unreadable_request) (Sample.server Sample.always_ok)
     = Normal {| status := 500; body := error_body "Internal server error" |}.
Proof.
  split.
  - refine (proj1 (POST_unusable_file_entry Scenario.string_file_request
                     (Sample.server Sample.always_ok) _)).
    right. exists [("file", EString "photo.png")], "photo.png". split; reflexivity.
  - refine (proj1 (POST_unusable_file_entry Scenario.unreadable_request
                     (Sample.server Sample.always_ok) _)).
    left. reflexivity.
Defined.

(** X4.  On success the two stores agree: the object is stored in bucket
    [hero-images] under the very key that the new row has as [file_name],
    with the file's declared type and a cache hint of 3600; the row's
    [file_url] is the public address of that key; the row added to the table
    is the one returned as [image]; and the upload and the insert are the
    only requests, in this order. *)
Theorem POST_success_stores_object_and_row
    (request : NextRequest) (formData : FormData) (f : File.t) (p : Proc unit) :
  form request = Some formData ->
  get formData "file" = Some (EFile f) ->
  next_fate (world p) = Fulfilled ->
  second_fate (world p) = Fulfilled ->
  let p' := exec (POST request) p in
  exists image sent_row opts,
    eval (POST request) p
    = Normal {| status := 200;
                body := success_body (Some image) "Hero image uploaded successfully" |}
    /\ opts = Some {| contentType := File.type f; cacheControl := "3600" |}
    /\ objects (world p')
       = (objects (world p)
          ++ [{| bucket := "hero-images"; path := HeroImage.file_name image;
                 Supabase.body := f; options := opts |}])%list
    /\ hero_images (world p') = (hero_images (world p) ++ [image])%list
    /\ HeroImage.file_url image
       = Supabase.getPublicUrl (world p) "hero-images" (HeroImage.file_name image)
    /\ image = HeroImage.stored (HeroImage.id image) sent_row
    /\ sent_since p p'
       = [storage_upload "hero-images" (HeroImage.file_name image) f opts;
          insert_hero_images sent_row].
Proof.
  intros Hform' Hfile' H1' H2'. cbv zeta.
  post_paths request p; try congruence.
  assert (fd0 = formData) by congruence; subst fd0.
  assert (f0 = f) by congruence; subst f0.
  do 3 eexists. repeat split.
Qed.

Lemma POST_success_stores_object_and_row_witness :
  exists image sent_row opts,
    eval (POST Sample.upload_request) (Sample.server Sample.always_ok)
    = Normal {| status := 200;
                body := success_body (Some image) "Hero image uploaded successfully" |}
    /\ opts = Some {| contentType := "image/png"; cacheControl := "3600" |}
    /\ objects (world (exec (POST Sample.upload_request) (Sample.server Sample.always_ok)))
       = [{| bucket := "hero-images"; path := HeroImage.file_name image;
             Supabase.body := Sample.png; options := opts |}]
    /\ hero_images (world (exec (POST Sample.upload_request)
                                (Sample.server Sample.always_ok)))
       = [image]
    /\ HeroImage.file_url image
       = Supabase.getPublicUrl (world (Sample.server Sample.always_ok)) "hero-images"
           (HeroImage.file_name image)
    /\ image = HeroImage.stored (HeroImage.id image) sent_row
    /\ sent_since (Sample.server Sample.always_ok)
                  (exec (POST Sample.upload_request) (Sample.server Sample.always_ok))
       = [storage_upload "hero-images" (HeroImage.file_name image) Sample.png opts;
          insert_hero_images sent_row].
Proof.
  exact (POST_success_stores_object_and_row Sample.upload_request
           [("title", EString "Summer"); ("file", EFile Sample.png);
            ("display_order", EString "3")]
           Sample.png (Sample.server Sample.always_ok)
           eq_refl eq_refl eq_refl eq_refl).
Defined.

Lemma strict_eq_true (v : option FormDataEntryValue) (s : string) :
  strict_eq v s = true <-> v = Some (EString s).
Proof.
  destruct v as [[s' | f] |]; cbn; try (split; [discriminate | congruence]).
  rewrite String.eqb_eq. split; congruence.
Qed.

(** X5.  Whatever the request, a row the handler sends for insertion is
    active, shows its content exactly when form field [show_content] is the
    string [true], and has the empty string for each of [title], [subtitle]
    and [description] that the form does not have. *)
Theorem POST_inserted_row_fields
    (request : NextRequest) (p : Proc unit) (row : HeroImage.insert) :
  In (insert_hero_images row) (sent_since p (exec (POST request) p)) ->
  exists formData,
    form request = Some formData
    /\ HeroImage.i_is_active row = true
    /\ (HeroImage.i_show_content row = true
        <-> get formData "show_content" = Some (EString "true"))
    /\ (get formData "title" = None -> HeroImage.i_title row = EString "")
    /\ (get formData "subtitle" = None -> HeroImage.i_subtitle row = EString "")
    /\ (get formData "description" = None
        -> HeroImage.i_description row = EString "").
Proof.
  revert row. post_paths request p; intros row Hin; cbn [In] in Hin;
    try contradiction;
    try (destruct Hin as [Hin | []]; discriminate);
    (destruct Hin as [Hin | [Hin | []]]; [discriminate|];
     inversion Hin; subst; clear Hin; exists fd0;
     cbn [HeroImage.i_is_active HeroImage.i_show_content HeroImage.i_title
          HeroImage.i_subtitle HeroImage.i_description];
     repeat split;
     try (apply strict_eq_true);
     try (intros ->; reflexivity)).
Qed.

Lemma POST_inserted_row_fields_witness :
  exists formData,
    form Sample.upload_request = Some formData
    /\ HeroImage.i_is_active Sample.sent_row = true
    /\ (HeroImage.i_show_content Sample.sent_row = true
        <-> get formData "show_content" = Some (EString "true"))
    /\ (get formData "title" = None -> HeroImage.i_title Sample.sent_row = EString "")
    /\ (get formData "subtitle" = None
        -> HeroImage.i_subtitle Sample.sent_row = EString "")
    /\ (get formData "description" = None
        -> HeroImage.i_description Sample.sent_row = EString "").
Proof.
  apply (POST_inserted_row_fields Sample.upload_request (Sample.server Sample.always_ok)
           Sample.sent_row).
  vm_compute. right. left. reflexivity.
Defined.

(** X6.  The handler sends at most two requests, in a fixed order: nothing,
    or one upload to bucket [hero-images], or that upload followed by one
    insert whose [file_name] is the uploaded key.  It never inserts without
    having uploaded, and it never changes table [qr_codes]. *)
Theorem POST_request_order (request : NextRequest) (p : Proc unit) :
  let p' := exec (POST request) p in
  (sent_since p p' = []
   \/ (exists key f o, sent_since p p' = [storage_upload "hero-images" key f o])
   \/ (exists key f o row,
         sent_since p p'
         = [storage_upload "hero-images" key f o; insert_hero_images row]
         /\ HeroImage.i_file_name row = key))
  /\ qr_codes (world p') = qr_codes (world p).
Proof.
  cbv zeta. post_paths request p; (split; [|reflexivity]);
    first [ left; reflexivity
          | right; left; do 3 eexists; reflexivity
          | right; right; do 4 eexists; split; reflexivity ].
Qed.

End UploadPaths.

(** ** More about the QR-code manager *)

Section ManagerPaths.
Import Supabase QRCodeManager Observe.

(** *** Fetching the list *)

Lemma insert_desc_perm (r : QRCodeData.t) (l : list QRCodeData.t) :
  Permutation (insert_desc r l) (r :: l).
Proof.
  induction l as [| x l IH]; cbn; [reflexivity|].
  destruct (String.leb _ _); [reflexivity|].
  rewrite IH. apply perm_swap.
Qed.

Lemma order_created_at_desc_perm (l : list QRCodeData.t) :
  Permutation (order_created_at_desc l) l.
Proof.
  induction l as [| x l IH]; cbn; [reflexivity|].
  rewrite insert_desc_perm. now constructor.
Qed.

Lemma insert_desc_sorted (r : QRCodeData.t) (l : list QRCodeData.t) :
  Sorted newer_or_same l -> Sorted newer_or_same (insert_desc r l).
Proof.
  induction 1 as [| x l Hl IH Hx]; cbn; [repeat constructor|].
  destruct (String.leb (QRCodeData.created_at x) (QRCodeData.created_at r)) eqn:E.
  - repeat constructor; assumption.
  - assert (Hxr : newer_or_same x r).
    { unfold newer_or_same.
      destruct (String.leb_total (QRCodeData.created_at x) (QRCodeData.created_at r));
        congruence. }
    constructor; [exact IH|].
    destruct Hx as [| y l Hy]; cbn; [now constructor|].
    destruct (String.leb (QRCodeData.created_at y) (QRCodeData.created_at r));
      now constructor.
Qed.

Lemma order_created_at_desc_sorted (l : list QRCodeData.t) :
  Sorted newer_or_same (order_created_at_desc l).
Proof.
  induction l as [| x l IH]; cbn; [constructor | now apply insert_desc_sorted].
Qed.

(** X7.  When the list request answers with an error or its promise
    rejects, the list the component holds is left as it was, the error
    message is set, the [loading] flag is cleared, and the table is
    untouched. *)
Theorem loadQRCodes_failure_keeps_list (p : Proc State) :
  next_fate (world p) <> Fulfilled ->
  let p' := exec loadQRCodes p in
  qrCodes (local p') = qrCodes (local p)
  /\ QRCodeManager.error (local p') = "Failed to load QR codes"
  /\ loading (local p') = false
  /\ qr_codes (world p') = qr_codes (world p).
Proof.
  intros Hf. cbv zeta.
  unfold exec, loadQRCodes, try_finally, try_catch, bind, send. run_steps.
  destruct (next_fate (world p)); [congruence | ..]; run_steps; auto.
Qed.

Lemma loadQRCodes_failure_keeps_list_witness :
  qrCodes (local (exec loadQRCodes
     (Sample.client Scenario.ready_again [Sample.row_a; Sample.row_b]
        Sample.first_fails)))
  = [Sample.row_a].
Proof.
  refine (proj1 (loadQRCodes_failure_keeps_list
     (Sample.client Scenario.ready_again [Sample.row_a; Sample.row_b]
        Sample.first_fails) _)).
  discriminate.
Defined.

(** X8.  When the list request is carried out, the component's list
    becomes the rows of the table: the same rows (none lost, none added),
    newest first.  A message left in [error] by an earlier failure is not
    cleared. *)
Theorem loadQRCodes_success_lists_table (p : Proc State) :
  next_fate (world p) = Fulfilled ->
  let p' := exec loadQRCodes p in
  Permutation (qrCodes (local p')) (qr_codes (world p))
  /\ Sorted newer_or_same (qrCodes (local p'))
  /\ QRCodeManager.error (local p') = QRCodeManager.error (local p)
  /\ loading (local p') = false.
Proof.
  intros Hf. cbv zeta.
  unfold exec, loadQRCodes, try_finally, try_catch, bind. run_steps.
  rewrite send_Fulfilled by exact Hf. run_steps.
  repeat split.
  - apply order_created_at_desc_perm.
  - apply order_created_at_desc_sorted.
Qed.

Lemma loadQRCodes_success_lists_table_witness :
  qrCodes (local (exec loadQRCodes
     (Sample.client initial [Sample.row_a; Sample.row_b] Sample.always_ok)))
  = [Sample.row_b; Sample.row_a]
  /\ Permutation
       (qrCodes (local (exec loadQRCodes
          (Sample.client initial [Sample.row_a; Sample.row_b] Sample.always_ok))))
       [Sample.row_a; Sample.row_b].
Proof.
  split; [reflexivity|].
  refine (proj1 (loadQRCodes_success_lists_table
     (Sample.client initial [Sample.row_a; Sample.row_b] Sample.always_ok) _)).
  reflexivity.
Defined.

(** *** Choosing a file *)

(** X9.  A file of at most 5 MiB (the limit itself included) whose declared
    type starts with [image/] is stored as the selected file and the error
    message is cleared; nothing else of the component changes and nothing is
    sent. *)
Theorem handleFileSelect_accepts (e : ChangeEvent) (f : File.t) (p : Proc State) :
  first_file e = Some f ->
  accepted f ->
  let p' := exec (handleFileSelect e) p in
  selectedFile (local p') = Some f
  /\ QRCodeManager.error (local p') = ""
  /\ qrCodeName (local p') = qrCodeName (local p)
  /\ qrCodes (local p') = qrCodes (local p)
  /\ success (local p') = success (local p)
  /\ world p' = world p.
Proof.
  intros Hf [Hsize Htype]. cbv zeta.
  unfold exec, handleFileSelect, bind. rewrite Hf.
  destruct (Z.gtb_spec (File.size f) (5 * 1024 * 1024)) as [Hbig | _]; [lia|].
  rewrite Htype. run_steps. auto 10.
Qed.

Lemma handleFileSelect_accepts_witness :
  selectedFile (local (exec (handleFileSelect {| target_files := Some [Scenario.jpg] |})
                            Sample.mounted))
  = Some Scenario.jpg.
Proof.
  refine (proj1 (handleFileSelect_accepts {| target_files := Some [Scenario.jpg] |}
                   Scenario.jpg Sample.mounted _ _)).
  - reflexivity.
  - split; [discriminate | reflexivity].
Defined.

(** *** Uploading a QR code *)

(** Every path of [uploadQRCode]: after this tactic each goal is about one
    path, with the state after it computed (the dropped list fetch of the
    success path is left as [exec loadQRCodes _]). *)
Ltac upload_paths render p :=
  let r := fresh "r" in
  let p' := fresh "p'" in
  let E := fresh "E" in
  unfold eval, exec;
  destruct (uploadQRCode render p) as [r p'] eqn:E;
  unfold uploadQRCode in E;
  destruct (selectedFile render) as [f0|] eqn:Hsel0; cbn [negb orb] in E;
  [ destruct (JS.truthy_string (JS.trim (qrCodeName render))) eqn:Hname0;
    cbn [negb] in E;
    [ unfold try_finally, try_catch, bind in E; run_steps;
      destruct (next_fate (world p)) as [| m0 | e0] eqn:Hfate1;
      [ rewrite send_Fulfilled in E by exact Hfate1; run_steps;
        destruct (second_fate (world p)) as [| m0 | e0] eqn:Hfate2;
        [ rewrite send_Fulfilled in E by (rewrite <- Hfate2; apply next_fate_sent);
          run_steps; rewrite unawaited_run in E
        | rewrite send_Failed with (msg := m0) in E
            by (rewrite <- Hfate2; apply next_fate_sent)
        | rewrite send_Rejected with (e := e0) in E
            by (rewrite <- Hfate2; apply next_fate_sent) ]
      | rewrite send_Failed with (msg := m0) in E by exact Hfate1
      | rewrite send_Rejected with (e := e0) in E by exact Hfate1 ]
    | ]
  | ];
  run_steps; inversion E; subst r p'; clear E; run_steps.

Lemma trim_not_blank (s : string) :
  JS.trim s <> "" <-> JS.truthy_string (JS.trim s) = true.
Proof. destruct (JS.trim s); cbn; split; congruence. Qed.

(** X10.  When the storage upload answers with an error, the upload of a
    QR code stops there: the error message is set, no insert is sent (the
    upload is the only request), table and bucket are as before, and the
    chosen file and the entered name are kept, so the user can try again. *)
Theorem uploadQRCode_storage_error
    (render : State) (f : File.t) (msg : string) (p : Proc State) :
  selectedFile render = Some f ->
  JS.trim (qrCodeName render) <> "" ->
  next_fate (world p) = Failed msg ->
  let p' := exec (uploadQRCode render) p in
  QRCodeManager.error (local p') = "Failed to upload image"
  /\ (exists key, sent_since p p' = [storage_upload "qr-codes" key f None])
  /\ qr_codes (world p') = qr_codes (world p)
  /\ objects (world p') = objects (world p)
  /\ selectedFile (local p') = selectedFile (local p)
  /\ qrCodeName (local p') = qrCodeName (local p)
  /\ uploading (local p') = false.
Proof.
  intros Hf Hname H1. apply trim_not_blank in Hname. cbv zeta. unfold sent_since.
  upload_paths render p; try congruence.
  rewrite skipn_sent. assert (f0 = f) by congruence. subst f0.
  repeat split. eexists. reflexivity.
Qed.

Lemma uploadQRCode_storage_error_witness :
  QRCodeManager.error (local (exec (uploadQRCode Sample.ready)
     (Sample.client Sample.ready [] Sample.first_fails)))
  = "Failed to upload image".
Proof.
  refine (proj1 (uploadQRCode_storage_error Sample.ready Sample.png "permission denied"
                   (Sample.client Sample.ready [] Sample.first_fails) _ _ _)).
  - reflexivity.
  - discriminate.
  - reflexivity.
Defined.

(** X11.  When the upload is carried out and the insert answers with an
    error, the error message is set and no row is added, but the uploaded
    object stays in bucket [qr-codes]: nothing removes it.  The chosen file
    and the name are kept. *)
Theorem uploadQRCode_insert_error_keeps_object
    (render : State) (f : File.t) (msg : string) (p : Proc State) :
  selectedFile render = Some f ->
  JS.trim (qrCodeName render) <> "" ->
  next_fate (world p) = Fulfilled ->
  second_fate (world p) = Failed msg ->
  let p' := exec (uploadQRCode render) p in
  QRCodeManager.error (local p') = "Failed to save QR code"
  /\ qr_codes (world p') = qr_codes (world p)
  /\ (exists key,
        objects (world p')
        = (objects (world p)
           ++ [{| bucket := "qr-codes"; path := key; Supabase.body := f;
                  options := None |}])%list)
  /\ selectedFile (local p') = selectedFile (local p)
  /\ qrCodeName (local p') = qrCodeName (local p)
  /\ uploading (local p') = false.
Proof.
  intros Hf Hname H1 H2. apply trim_not_blank in Hname. cbv zeta.
  upload_paths render p; try congruence.
  assert (f0 = f) by congruence. subst f0.
  repeat split. eexists. reflexivity.
Qed.

Lemma uploadQRCode_insert_error_keeps_object_witness :
  QRCodeManager.error (local (exec (uploadQRCode Sample.ready)
     (Sample.client Sample.ready [] Scenario.second_fails)))
  = "Failed to save QR code".
Proof.
  refine (proj1 (uploadQRCode_insert_error_keeps_object Sample.ready Sample.png
                   "row violates policy"
                   (Sample.client Sample.ready [] Scenario.second_fails) _ _ _ _)).
  - reflexivity.
  - discriminate.
  - reflexivity.
  - reflexivity.
Defined.

(** The state after a list fetch, whatever became of the request. *)
Lemma loadQRCodes_run (p : Proc State) :
  exists l e c,
    exec loadQRCodes p
    = {| local := {| qrCodes := l; loading := false;
                     uploading := uploading (local p);
                     selectedFile := selectedFile (local p);
                     qrCodeName := qrCodeName (local p);
                     error := e; success := success (local p) |};
         world := sent select_qr_codes (world p);
         console := c |}
    /\ (next_fate (world p) = Fulfilled ->
        l = order_created_at_desc (qr_codes (world p))
        /\ e = QRCodeManager.error (local p))
    /\ (next_fate (world p) <> Fulfilled ->
        l = qrCodes (local p) /\ e = "Failed to load QR codes").
Proof.
  unfold exec, loadQRCodes, try_finally, try_catch, bind, send. run_steps.
  destruct (next_fate (world p)); run_steps;
    do 3 eexists; (split; [reflexivity|]); split; intros H;
    first [congruence | split; reflexivity].
Qed.

(** The success path of an upload, in full. *)
Lemma uploadQRCode_success_run (render : State) (f : File.t) (p : Proc State) :
  selectedFile render = Some f ->
  JS.trim (qrCodeName render) <> "" ->
  next_fate (world p) = Fulfilled ->
  second_fate (world p) = Fulfilled ->
  let p' := exec (uploadQRCode render) p in
  let key :=
    JS.number_toString (clock (world p)) ++ "."
    ++ JS.template (JS.pop (JS.split "." (File.name f))) in
  let sent_row :=
    {| QRCodeData.i_name := JS.trim (qrCodeName render);
       QRCodeData.i_image_url := Supabase.getPublicUrl (world p) "qr-codes" key;
       QRCodeData.i_is_active := Nat.eqb (List.length (qrCodes render)) 0 |} in
  let row := QRCodeData.stored (fresh_id (world p)) (server_now (world p)) sent_row in
  qr_codes (world p') = (qr_codes (world p) ++ [row])%list
  /\ objects (world p')
     = (objects (world p)
        ++ [{| bucket := "qr-codes"; path := key; Supabase.body := f;
               options := None |}])%list
  /\ log (world p')
     = (log (world p)
        ++ [storage_upload "qr-codes" key f None; insert_qr_codes sent_row;
            select_qr_codes])%list
  /\ oracle (world p') = oracle (world p)
  /\ selectedFile (local p') = None
  /\ qrCodeName (local p') = ""
  /\ success (local p') = "QR code uploaded successfully!"
  /\ uploading (local p') = false
  /\ (oracle (world p) (2 + List.length (log (world p))) = Fulfilled ->
      qrCodes (local p') = order_created_at_desc (qr_codes (world p) ++ [row])).
Proof.
  intros Hf Hname H1 H2. apply trim_not_blank in Hname. cbv zeta.
  upload_paths render p; try congruence.
  assert (f0 = f) by congruence. subst f0.
  match goal with
  | |- context [exec loadQRCodes ?q] =>
      destruct (loadQRCodes_run q) as (l & e & c & HE & Hok & _); rewrite HE
  end.
  unfold fresh_id, Supabase.getPublicUrl in *. run_steps.
  rewrite <- !app_assoc. cbn [app].
  repeat split.
  intros H3. apply Hok.
  unfold next_fate. run_steps. rewrite <- !app_assoc, length_app. cbn [List.length app].
  rewrite <- H3. f_equal. lia.
Qed.

(** X12.  After a successful upload the form is reset (no selected file,
    empty name), the success message is set, the [uploading] flag is
    cleared, and the requests sent are the upload to bucket [qr-codes], the
    insert (with the trimmed name) and the list fetch, in this order.  When
    the fetch is carried out the list of the component holds the new row. *)
Theorem uploadQRCode_success_resets_form
    (render : State) (f : File.t) (p : Proc State) :
  selectedFile render = Some f ->
  JS.trim (qrCodeName render) <> "" ->
  next_fate (world p) = Fulfilled ->
  second_fate (world p) = Fulfilled ->
  let p' := exec (uploadQRCode render) p in
  selectedFile (local p') = None
  /\ qrCodeName (local p') = ""
  /\ success (local p') = "QR code uploaded successfully!"
  /\ uploading (local p') = false
  /\ (exists key sent_row,
        sent_since p p'
        = [storage_upload "qr-codes" key f None; insert_qr_codes sent_row;
           select_qr_codes]
        /\ QRCodeData.i_name sent_row = JS.trim (qrCodeName render)
        /\ (oracle (world p) (2 + List.length (log (world p))) = Fulfilled ->
            exists row,
              In row (qrCodes (local p'))
              /\ QRCodeData.name row = JS.trim (qrCodeName render)
              /\ In row (qr_codes (world p')))).
Proof.
  intros Hf Hname H1 H2.
  destruct (uploadQRCode_success_run render f p Hf Hname H1 H2)
    as (Hrows & _ & Hlog & _ & Hsel & Hnm & Hsucc & Hup & Hlist).
  cbv zeta. repeat (split; [assumption|]).
  do 2 eexists. split; [unfold sent_since; rewrite Hlog; apply skipn_sent|].
  split; [reflexivity|].
  intros H3. eexists. rewrite (Hlist H3), Hrows. split; [|split].
  - eapply Permutation_in; [symmetry; apply order_created_at_desc_perm|].
    apply in_or_app. right. left. reflexivity.
  - reflexivity.
  - apply in_or_app. right. left. reflexivity.
Qed.

Lemma uploadQRCode_success_resets_form_witness :
  selectedFile (local (exec (uploadQRCode Sample.ready)
     (Sample.client Sample.ready [] Sample.always_ok)))
  = None.
Proof.
  refine (proj1 (uploadQRCode_success_resets_form Sample.ready Sample.png
                   (Sample.client Sample.ready [] Sample.always_ok) _ _ _ _)).
  - reflexivity.
  - discriminate.
  - reflexivity.
  - reflexivity.
Defined.

(** X13.  Two uploads in a row on an empty table, every request carried
    out, the second upload started from the render that follows the first:
    the table then holds two rows, the first active and the second not. *)
Theorem first_upload_active_second_not
    (p : Proc State) (r1 r2 : State) (f1 f2 : File.t) :
  (forall n, oracle (world p) n = Fulfilled) ->
  qr_codes (world p) = [] ->
  qrCodes r1 = [] ->
  selectedFile r1 = Some f1 ->
  JS.trim (qrCodeName r1) <> "" ->
  let p1 := exec (uploadQRCode r1) p in
  qrCodes r2 = qrCodes (local p1) ->
  selectedFile r2 = Some f2 ->
  JS.trim (qrCodeName r2) <> "" ->
  let p2 := exec (uploadQRCode r2) p1 in
  exists a b,
    qr_codes (world p2) = [a; b]
    /\ QRCodeData.is_active a = true
    /\ QRCodeData.is_active b = false
    /\ QRCodeData.name a = JS.trim (qrCodeName r1)
    /\ QRCodeData.name b = JS.trim (qrCodeName r2).
Proof.
  intros Hall Hempty Hl1 Hf1 Hn1 p1 Hl2 Hf2 Hn2 p2.
  destruct (uploadQRCode_success_run r1 f1 p Hf1 Hn1 (Hall _) (Hall _))
    as (Hrows1 & _ & _ & Horacle1 & _ & _ & _ & _ & Hlist1).
  fold p1 in Hrows1, Horacle1, Hlist1.
  assert (Hok : forall n, oracle (world p1) n = Fulfilled)
    by (intros n; rewrite Horacle1; apply Hall).
  destruct (uploadQRCode_success_run r2 f2 p1 Hf2 Hn2 (Hok _) (Hok _))
    as (Hrows2 & _).
  fold p2 in Hrows2.
  rewrite Hrows2, Hrows1, Hempty. cbn [app].
  do 2 eexists. split; [reflexivity|].
  cbn [QRCodeData.is_active QRCodeData.name QRCodeData.stored
       QRCodeData.i_is_active QRCodeData.i_name].
  rewrite Hl2, (Hlist1 (Hall _)), Hempty, Hl1. cbn. auto.
Qed.

Lemma first_upload_active_second_not_witness :
  exists a b,
    qr_codes (world (exec (uploadQRCode Scenario.after_first_upload)
                        (exec (uploadQRCode Sample.ready)
                              (Sample.client Sample.ready [] Sample.always_ok))))
    = [a; b]
    /\ QRCodeData.is_active a = true
    /\ QRCodeData.is_active b = false
    /\ QRCodeData.name a = JS.trim (qrCodeName Sample.ready)
    /\ QRCodeData.name b = JS.trim (qrCodeName Scenario.after_first_upload).
Proof.
  refine (first_upload_active_second_not
            (Sample.client Sample.ready [] Sample.always_ok)
            Sample.ready Scenario.after_first_upload
            Sample.png Scenario.jpg _ _ _ _ _ _ _ _).
  - intros n. reflexivity.
  - reflexivity.
  - reflexivity.
  - reflexivity.
  - vm_compute. discriminate.
  - vm_compute. reflexivity.
  - reflexivity.
  - vm_compute. discriminate.
Defined.

Lemma filter_active_present (a : QRCodeData.t) (rows : list QRCodeData.t) :
  In a rows -> QRCodeData.is_active a = true ->
  1 <= List.length (filter QRCodeData.is_active rows).
Proof.
  intros Hin Ha. induction rows as [| r rows IH]; [contradiction|].
  cbn. destruct Hin as [-> | Hin].
  - rewrite Ha. cbn. lia.
  - specialize (IH Hin). destruct (QRCodeData.is_active r); cbn; lia.
Qed.

(** X14.  Whether the new row is active is decided from the list the
    component holds, not from the table: when that list is empty (a fetch
    that failed, or rows added since) while the table already has an active
    row, a successful upload adds a second active row. *)
Theorem uploadQRCode_stale_list_adds_active
    (render : State) (f : File.t) (a : QRCodeData.t) (p : Proc State) :
  qrCodes render = [] ->
  In a (qr_codes (world p)) ->
  QRCodeData.is_active a = true ->
  selectedFile render = Some f ->
  JS.trim (qrCodeName render) <> "" ->
  next_fate (world p) = Fulfilled ->
  second_fate (world p) = Fulfilled ->
  let p' := exec (uploadQRCode render) p in
  List.length (filter QRCodeData.is_active (qr_codes (world p')))
  = S (List.length (filter QRCodeData.is_active (qr_codes (world p))))
  /\ 2 <= List.length (filter QRCodeData.is_active (qr_codes (world p'))).
Proof.
  intros Hl Hin Ha Hf Hname H1 H2.
  destruct (uploadQRCode_success_run render f p Hf Hname H1 H2) as (Hrows & _).
  cbv zeta. rewrite Hrows, filter_app, length_app, Hl. cbn.
  pose proof (filter_active_present a _ Hin Ha). lia.
Qed.

Lemma uploadQRCode_stale_list_adds_active_witness :
  2 <= List.length (filter QRCodeData.is_active
         (qr_codes (world (exec (uploadQRCode Sample.ready)
                                (Sample.client Sample.ready [Sample.row_a]
                                   Sample.always_ok))))).
Proof.
  refine (proj2 (uploadQRCode_stale_list_adds_active Sample.ready Sample.png
                   Sample.row_a
                   (Sample.client Sample.ready [Sample.row_a] Sample.always_ok)
                   _ _ _ _ _ _ _)).
  - reflexivity.
  - left. reflexivity.
  - reflexivity.
  - reflexivity.
  - vm_compute. discriminate.
  - reflexivity.
  - reflexivity.
Defined.

(** What every path of an upload has in common. *)
Lemma uploadQRCode_every_path (render : State) (p : Proc State) :
  let p' := exec (uploadQRCode render) p in
  eval (uploadQRCode render) p = Normal tt
  /\ (selectedFile (local p') = selectedFile (local p)
      \/ selectedFile (local p') = None)
  /\ hero_images (world p') = hero_images (world p)
  /\ exists new,
       log (world p') = (log (world p) ++ new)%list
       /\ Forall about_qr_codes new
       /\ (forall b k f o,
             In (storage_upload b k f o) new ->
             selectedFile render = Some f /\ o = None)
       /\ (forall f,
             selectedFile render = Some f ->
             JS.truthy_string (JS.trim (qrCodeName render)) = true ->
             exists key rest, new = storage_upload "qr-codes" key f None :: rest).
Proof.
  cbv zeta. upload_paths render p;
    try match goal with
        | |- context [exec loadQRCodes ?q] =>
            destruct (loadQRCodes_run q) as (l & e & c & HE & _ & _); rewrite HE
        end;
    run_steps; rewrite <- ?app_assoc; cbn [app];
    (split; [reflexivity|]); (split; [auto|]); (split; [reflexivity|]);
    first [ exists []; rewrite app_nil_r; split; [reflexivity|];
            split; [constructor|]; split; [intros ? ? ? ? []|];
            intros g Hg Ht; congruence
          | eexists; split; [reflexivity|]; split; [repeat constructor|]; split;
            [ intros b k f o Hin; cbn [In] in Hin;
              repeat (destruct Hin as [Hin | Hin]; [try discriminate|]);
              try contradiction;
              inversion Hin; subst; auto
            | intros g Hg Ht; assert (g = f0) by congruence; subst g;
              do 2 eexists; reflexivity ] ].
Qed.

(** *** Deleting a QR code *)

(** Every path of [deleteQRCode] past the confirmation. *)
Ltac delete_paths id p :=
  let r := fresh "r" in
  let p' := fresh "p'" in
  let E := fresh "E" in
  unfold eval, exec;
  destruct (deleteQRCode id p) as [r p'] eqn:E;
  unfold deleteQRCode, try_catch, bind in E; run_steps;
  destruct (user_confirms (world p)) eqn:Hconfirm0; cbn [negb] in E;
  [ destruct (next_fate (world p)) as [| m0 | e0] eqn:Hfate1;
    [ rewrite send_Fulfilled in E by exact Hfate1; run_steps;
      rewrite unawaited_run in E
    | rewrite send_Failed with (msg := m0) in E by exact Hfate1
    | rewrite send_Rejected with (e := e0) in E by exact Hfate1 ]
  | ];
  run_steps; inversion E; subst r p'; clear E; run_steps.

(** X15.  When the user declines the confirmation, deleting does nothing at
    all: the state after the call is the state before it, and nothing is
    sent. *)
Theorem deleteQRCode_declined (id : string) (p : Proc State) :
  user_confirms (world p) = false ->
  exec (deleteQRCode id) p = p /\ sent_since p (exec (deleteQRCode id) p) = [].
Proof.
  intros Hno. unfold sent_since.
  delete_paths id p; try congruence.
  rewrite skipn_all. destruct p; auto.
Qed.

Lemma deleteQRCode_declined_witness :
  exec (deleteQRCode "a")
       {| local := Sample.ready; world := Scenario.declining [Sample.row_a];
          console := [] |}
  = {| local := Sample.ready; world := Scenario.declining [Sample.row_a];
       console := [] |}.
Proof.
  refine (proj1 (deleteQRCode_declined "a"
           {| local := Sample.ready; world := Scenario.declining [Sample.row_a];
              console := [] |} _)).
  reflexivity.
Defined.

(** X16.  When the user confirms and the delete is carried out, the table
    loses the rows with that id and keeps every other row, in order; the
    success message is set and the list is fetched again, so that, when the
    fetch is carried out, the list of the component has no row with that id.
    When no row has the id the table is unchanged, and success is reported
    all the same. *)
Theorem deleteQRCode_removes_row (id : string) (p : Proc State) :
  user_confirms (world p) = true ->
  next_fate (world p) = Fulfilled ->
  let p' := exec (deleteQRCode id) p in
  qr_codes (world p')
  = filter (fun r => negb (String.eqb (QRCodeData.id r) id)) (qr_codes (world p))
  /\ (forall r, In r (qr_codes (world p'))
                <-> In r (qr_codes (world p)) /\ QRCodeData.id r <> id)
  /\ (~ In id (map QRCodeData.id (qr_codes (world p)))
      -> qr_codes (world p') = qr_codes (world p))
  /\ success (local p') = "QR code deleted successfully!"
  /\ sent_since p p' = [delete_qr_codes id; select_qr_codes]
  /\ (second_fate (world p) = Fulfilled ->
      forall r, In r (qrCodes (local p')) -> QRCodeData.id r <> id).
Proof.
  intros Hyes H1. cbv zeta. unfold sent_since.
  delete_paths id p; try congruence.
  match goal with
  | |- context [exec loadQRCodes ?q] =>
      destruct (loadQRCodes_run q) as (l & e & c & HE & Hok & _); rewrite HE
  end.
  run_steps. rewrite <- app_assoc, skipn_sent. cbn [app].
  assert (Hin : forall r,
             In r (filter (fun r => negb (String.eqb (QRCodeData.id r) id))
                          (qr_codes (world p)))
             <-> In r (qr_codes (world p)) /\ QRCodeData.id r <> id).
  { intros r. rewrite filter_In, negb_true_iff, String.eqb_neq. reflexivity. }
  split; [reflexivity|]. split; [exact Hin|]. split; [|split; [reflexivity|split;
    [reflexivity|]]].
  - intros Habsent. apply forallb_filter_id. apply forallb_forall.
    intros r Hr. apply negb_true_iff, String.eqb_neq. intros Heq.
    apply Habsent. rewrite <- Heq. now apply in_map.
  - intros H2 r Hr.
    destruct Hok as [-> _].
    { rewrite <- H2. unfold next_fate, second_fate. run_steps.
      now rewrite last_length. }
    run_steps.
    apply (Permutation_in _ (order_created_at_desc_perm _)) in Hr.
    now apply Hin in Hr.
Qed.

Lemma deleteQRCode_removes_row_witness :
  qr_codes (world (exec (deleteQRCode "a")
     (Sample.client Sample.ready [Sample.row_a; Sample.row_b] Sample.always_ok)))
  = [Sample.row_b].
Proof.
  refine (proj1 (deleteQRCode_removes_row "a"
     (Sample.client Sample.ready [Sample.row_a; Sample.row_b] Sample.always_ok) _ _));
    reflexivity.
Defined.

(** X17.  When the user confirms and the delete answers with an error or
    its promise rejects, the error message is set, the table and the list of
    the component are as before, and the list is not fetched again: the
    delete is the only request. *)
Theorem deleteQRCode_failure (id : string) (p : Proc State) :
  user_confirms (world p) = true ->
  next_fate (world p) <> Fulfilled ->
  let p' := exec (deleteQRCode id) p in
  QRCodeManager.error (local p') = "Failed to delete QR code"
  /\ qr_codes (world p') = qr_codes (world p)
  /\ qrCodes (local p') = qrCodes (local p)
  /\ success (local p') = success (local p)
  /\ sent_since p p' = [delete_qr_codes id].
Proof.
  intros Hyes H1. cbv zeta. unfold sent_since.
  delete_paths id p; try congruence; rewrite skipn_sent; auto.
Qed.

Lemma deleteQRCode_failure_witness :
  QRCodeManager.error (local (exec (deleteQRCode "a")
     (Sample.client Sample.ready [Sample.row_a] Scenario.first_rejects)))
  = "Failed to delete QR code".
Proof.
  refine (proj1 (deleteQRCode_failure "a"
     (Sample.client Sample.ready [Sample.row_a] Scenario.first_rejects) _ _)).
  - reflexivity.
  - discriminate.
Defined.

(** *** Toggling, on the other paths *)

(** Every path of [toggleActive]. *)
Ltac toggle_paths id p :=
  let r := fresh "r" in
  let p' := fresh "p'" in
  let E := fresh "E" in
  unfold eval, exec;
  destruct (toggleActive id p) as [r p'] eqn:E;
  unfold toggleActive, try_catch, bind in E;
  destruct (next_fate (world p)) as [| m0 | e0] eqn:Hfate1;
  [ rewrite send_Fulfilled in E by exact Hfate1
  | rewrite send_Failed with (msg := m0) in E by exact Hfate1
  | rewrite send_Rejected with (e := e0) in E by exact Hfate1 ];
  run_steps;
  [ destruct (second_fate (world p)) as [| m1 | e1] eqn:Hfate2;
    [ rewrite send_Fulfilled in E by (rewrite <- Hfate2; apply next_fate_sent);
      run_steps; rewrite unawaited_run in E
    | rewrite send_Failed with (msg := m1) in E
        by (rewrite <- Hfate2; apply next_fate_sent)
    | rewrite send_Rejected with (e := e1) in E
        by (rewrite <- Hfate2; apply next_fate_sent) ]
  | destruct (second_fate (world p)) as [| m1 | e1] eqn:Hfate2;
    [ rewrite send_Fulfilled in E by (rewrite <- Hfate2; apply next_fate_sent);
      run_steps; rewrite unawaited_run in E
    | rewrite send_Failed with (msg := m1) in E
        by (rewrite <- Hfate2; apply next_fate_sent)
    | rewrite send_Rejected with (e := e1) in E
        by (rewrite <- Hfate2; apply next_fate_sent) ]
  | ];
  run_steps; inversion E; subst r p'; clear E; run_steps;
  try match goal with
      | |- context [exec loadQRCodes ?q] =>
          let l := fresh "l" in
          let e := fresh "e" in
          let c := fresh "c" in
          let HE := fresh "HE" in
          destruct (loadQRCodes_run q) as (l & e & c & HE & _ & _); rewrite HE
      end;
  run_steps; rewrite <- ?app_assoc; cbn [app].

(** X18.  Toggling an id that no row of the table has (a row deleted in
    the meantime), with both writes carried out, leaves no active row at
    all, and still reports success. *)
Theorem toggleActive_absent_id (i : string) (p : Proc State) :
  ~ In i (map QRCodeData.id (qr_codes (world p))) ->
  next_fate (world p) = Fulfilled ->
  second_fate (world p) = Fulfilled ->
  let p' := exec (toggleActive i) p in
  filter QRCodeData.is_active (qr_codes (world p')) = []
  /\ success (local p') = "QR code status updated!".
Proof.
  intros Habsent H1 H2. cbv zeta.
  toggle_paths i p; try congruence.
  split; [|reflexivity].
  now apply cleared_then_set_absent.
Qed.

Lemma toggleActive_absent_id_witness :
  filter QRCodeData.is_active
    (qr_codes (world (exec (toggleActive "z")
       (Sample.client Sample.ready [Sample.row_a; Sample.row_b] Sample.always_ok))))
  = [].
Proof.
  refine (proj1 (toggleActive_absent_id "z"
     (Sample.client Sample.ready [Sample.row_a; Sample.row_b] Sample.always_ok)
     _ _ _)).
  - cbn. intros [H | [H | []]]; discriminate.
  - reflexivity.
  - reflexivity.
Defined.

(** X19.  When the first write (the clear) answers with an error and the
    second is carried out, no row is deactivated: every row that was active
    is still active, the rows with the target id are active too, and
    success is reported.  Two rows can be active afterwards. *)
Theorem toggleActive_failed_clear_keeps_active
    (i msg : string) (p : Proc State) :
  next_fate (world p) = Failed msg ->
  second_fate (world p) = Fulfilled ->
  let p' := exec (toggleActive i) p in
  qr_codes (world p')
  = map (fun r => if String.eqb (QRCodeData.id r) i
                  then QRCodeData.set_is_active true r else r)
        (qr_codes (world p))
  /\ (forall a, In a (qr_codes (world p)) -> QRCodeData.is_active a = true ->
                In a (qr_codes (world p')))
  /\ (forall b, In b (qr_codes (world p)) -> QRCodeData.id b = i ->
                In (QRCodeData.set_is_active true b) (qr_codes (world p')))
  /\ success (local p') = "QR code status updated!".
Proof.
  intros H1 H2. cbv zeta.
  toggle_paths i p; try congruence.
  split; [reflexivity|]. split; [|split; [|reflexivity]].
  - intros a Hin Ha. apply in_map_iff. exists a. split; [|exact Hin].
    destruct (String.eqb (QRCodeData.id a) i); [|reflexivity].
    destruct a; cbn in *; now subst.
  - intros b Hin Hb. apply in_map_iff. exists b. split; [|exact Hin].
    cbn. now rewrite Hb, String.eqb_refl.
Qed.

Lemma toggleActive_failed_clear_keeps_active_witness :
  qr_codes (world (exec (toggleActive "b")
     (Sample.client Sample.ready [Sample.row_a; Sample.row_b] Sample.first_fails)))
  = [Sample.row_a; QRCodeData.set_is_active true Sample.row_b].
Proof.
  refine (proj1 (toggleActive_failed_clear_keeps_active "b" "permission denied"
     (Sample.client Sample.ready [Sample.row_a; Sample.row_b] Sample.first_fails)
     _ _));
    reflexivity.
Defined.

Lemma toggleActive_second_write_fails_witness :
  filter QRCodeData.is_active
    (qr_codes (world (exec (toggleActive "b")
       (Sample.client Sample.ready [Sample.row_a; Sample.row_b]
          Scenario.second_fails))))
  = [].
Proof.
  refine (proj1 (toggleActive_second_write_fails
     (Sample.client Sample.ready [Sample.row_a; Sample.row_b] Scenario.second_fails)
     "b" "row violates policy" _ _));
    reflexivity.
Defined.

Lemma toggleActive_first_write_rejects_witness :
  sent_since
    (Sample.client Sample.ready [Sample.row_a; Sample.row_b] Scenario.first_rejects)
    (exec (toggleActive "b")
       (Sample.client Sample.ready [Sample.row_a; Sample.row_b]
          Scenario.first_rejects))
  = [update_qr_codes false None].
Proof.
  refine (proj1 (toggleActive_first_write_rejects
     (Sample.client Sample.ready [Sample.row_a; Sample.row_b] Scenario.first_rejects)
     "b" "TypeError: Failed to fetch" _)).
  reflexivity.
Defined.

(** What every path of a toggle and of a delete has in common. *)
Lemma toggleActive_every_path (i : string) (p : Proc State) :
  let p' := exec (toggleActive i) p in
  eval (toggleActive i) p = Normal tt
  /\ selectedFile (local p') = selectedFile (local p)
  /\ hero_images (world p') = hero_images (world p)
  /\ exists new,
       log (world p') = (log (world p) ++ new)%list
       /\ Forall about_qr_codes new
       /\ forall b k f o, ~ In (storage_upload b k f o) new.
Proof.
  cbv zeta. toggle_paths i p;
    (split; [reflexivity|]); (split; [reflexivity|]); (split; [reflexivity|]);
    eexists; (split; [reflexivity|]); (split; [repeat constructor|]);
    intros b k f o Hin; cbn [In] in Hin;
    repeat (destruct Hin as [Hin | Hin]; [discriminate|]); contradiction.
Qed.

Lemma deleteQRCode_every_path (i : string) (p : Proc State) :
  let p' := exec (deleteQRCode i) p in
  eval (deleteQRCode i) p = Normal tt
  /\ selectedFile (local p') = selectedFile (local p)
  /\ hero_images (world p') = hero_images (world p)
  /\ exists new,
       log (world p') = (log (world p) ++ new)%list
       /\ Forall about_qr_codes new
       /\ forall b k f o, ~ In (storage_upload b k f o) new.
Proof.
  cbv zeta. delete_paths i p;
    try match goal with
        | |- context [exec loadQRCodes ?q] =>
            destruct (loadQRCodes_run q) as (l & e & c & HE & _ & _); rewrite HE
        end;
    run_steps; rewrite <- ?app_assoc; cbn [app];
    (split; [reflexivity|]); (split; [reflexivity|]); (split; [reflexivity|]);
    first [ exists []; rewrite app_nil_r; split; [reflexivity|];
            split; [constructor | intros ? ? ? ? []]
          | eexists; (split; [reflexivity|]); (split; [repeat constructor|]);
            intros b k f o Hin; cbn [In] in Hin;
            repeat (destruct Hin as [Hin | Hin]; [discriminate|]); contradiction ].
Qed.

(** *** What holds of the component at all times *)

Lemma handleFileSelect_selectedFile (e : ChangeEvent) (p : Proc State) :
  let p' := exec (handleFileSelect e) p in
  world p' = world p
  /\ (selectedFile (local p') = selectedFile (local p)
      \/ exists f, selectedFile (local p') = Some f /\ accepted f).
Proof.
  cbv zeta. unfold exec, handleFileSelect, bind.
  destruct (first_file e) as [f|]; [|auto].
  destruct (Z.gtb_spec (File.size f) (5 * 1024 * 1024)) as [Hbig | Hsmall];
    [run_steps; auto|].
  destruct (JS.startsWith (File.type f) "image/") eqn:Htype; run_steps; [|auto].
  split; [reflexivity|]. right. exists f. split; [reflexivity|]. split; assumption.
Qed.

(** The selected file of a reachable state passed the checks (used for
    what the component uploads). *)
Lemma selection_invariant (p : Proc State) (f : File.t) :
  reachable p ->
  selectedFile (local p) = Some f ->
  accepted f.
Proof.
  intros Hp. revert f.
  induction Hp as [w | p ev Hp IH | p w Hp IH]; intros f; [discriminate | | exact (IH f)].
  destruct ev; cbn [dispatch];
    try change (exec (unawaited ?m) ?q) with (exec m q).
  - rewrite (loadQRCodes_keeps_selectedFile _). apply IH.
  - apply IH.
  - destruct (handleFileSelect_selectedFile e p) as (_ & [-> | (g & -> & Hg)]);
      [apply IH | congruence].
  - destruct (uploadQRCode_every_path (local p) p) as (_ & [-> | ->] & _);
      [apply IH | discriminate].
  - rewrite (loadQRCodes_keeps_selectedFile _). apply IH.
  - destruct (deleteQRCode_every_path id p) as (_ & -> & _). apply IH.
  - destruct (toggleActive_every_path id p) as (_ & -> & _). apply IH.
Qed.

(** X20.  Whatever the user does, events being handled one after the
    other, a selected file is always one that passed the checks of
    [handleFileSelect]: at most 5 MiB, declared type starting with
    [image/]. *)
Theorem reachable_selection_accepted (p : Proc State) (f : File.t) :
  reachable p ->
  selectedFile (local p) = Some f ->
  accepted f.
Proof.
  intros Hp. revert f.
  induction Hp as [w | p ev Hp IH | p w Hp IH]; intros f; [discriminate | | exact (IH f)].
  destruct ev; cbn [dispatch];
    try change (exec (unawaited ?m) ?q) with (exec m q).
  - rewrite (loadQRCodes_keeps_selectedFile _). apply IH.
  - apply IH.
  - destruct (handleFileSelect_selectedFile e p) as (_ & [-> | (g & -> & Hg)]);
      [apply IH | congruence].
  - destruct (uploadQRCode_every_path (local p) p) as (_ & [-> | ->] & _);
      [apply IH | discriminate].
  - rewrite (loadQRCodes_keeps_selectedFile _). apply IH.
  - destruct (deleteQRCode_every_path id p) as (_ & -> & _). apply IH.
  - destruct (toggleActive_every_path id p) as (_ & -> & _). apply IH.
Qed.

Lemma reachable_selection_accepted_witness : accepted Sample.png.
Proof.
  apply (reachable_selection_accepted Sample.chose_png Sample.png).
  - apply (reach_event Sample.mounted).
    apply (reach_event (Sample.client initial [] Sample.always_ok) Mount).
    apply reach_initial.
  - reflexivity.
Defined.

(** What the component sends when it handles one event. *)
Lemma dispatch_sends (render : State) (ev : Event) (p : Proc State) :
  let p' := exec (dispatch render ev) p in
  hero_images (world p') = hero_images (world p)
  /\ exists new,
       log (world p') = (log (world p) ++ new)%list
       /\ Forall about_qr_codes new
       /\ forall b k f o,
            In (storage_upload b k f o) new ->
            selectedFile render = Some f /\ o = None.
Proof.
  cbv zeta. destruct ev; cbn [dispatch];
    try change (exec (unawaited ?m) ?q) with (exec m q).
  - destruct (loadQRCodes_run p) as (l & e & c & -> & _). run_steps.
    split; [reflexivity|]. eexists. split; [reflexivity|].
    split; [repeat constructor|]. intros b k f o [H | []]. discriminate.
  - split; [reflexivity|]. exists []. rewrite app_nil_r.
    split; [reflexivity|]. split; [constructor | intros ? ? ? ? []].
  - destruct (handleFileSelect_selectedFile e p) as (-> & _).
    split; [reflexivity|]. exists []. rewrite app_nil_r.
    split; [reflexivity|]. split; [constructor | intros ? ? ? ? []].
  - destruct (uploadQRCode_every_path render p)
      as (_ & _ & Hh & new & Hl & Hq & Hn & _).
    split; [exact Hh|]. exists new. auto.
  - destruct (loadQRCodes_run p) as (l & e & c & -> & _). run_steps.
    split; [reflexivity|]. eexists. split; [reflexivity|].
    split; [repeat constructor|]. intros b k f o [H | []]. discriminate.
  - destruct (deleteQRCode_every_path id p) as (_ & _ & Hh & new & Hl & Hq & Hn).
    split; [exact Hh|]. exists new. repeat split; auto; now apply Hn in H.
  - destruct (toggleActive_every_path id p) as (_ & _ & Hh & new & Hl & Hq & Hn).
    split; [exact Hh|]. exists new. repeat split; auto; now apply Hn in H.
Qed.

(** X21.  Whatever the user does, every file the component uploads is one
    that passed the checks: an upload it sends goes to bucket [qr-codes],
    without options, and carries a file of at most 5 MiB whose declared type
    starts with [image/]. *)
Theorem component_uploads_only_accepted_files
    (p : Proc State) (ev : Event) (b k : string) (f : File.t)
    (o : option FileOptions) :
  reachable p ->
  In (storage_upload b k f o) (sent_since p (exec (dispatch (local p) ev) p)) ->
  b = "qr-codes" /\ o = None /\ accepted f.
Proof.
  intros Hp Hin.
  destruct (dispatch_sends (local p) ev p) as (_ & new & Hlog & Hq & Hup).
  unfold sent_since in Hin. rewrite Hlog, skipn_sent in Hin.
  destruct (Hup _ _ _ _ Hin) as [Hsel ->].
  rewrite Forall_forall in Hq. specialize (Hq _ Hin). cbn in Hq.
  repeat split; [exact Hq|..]; now apply (selection_invariant p f Hp).
Qed.

Lemma component_uploads_only_accepted_files_witness :
  "qr-codes" = "qr-codes" /\ @None FileOptions = None /\ accepted Sample.png.
Proof.
  apply (component_uploads_only_accepted_files Scenario.named ClickUpload
           "qr-codes" "1700000000000.PNG" Sample.png None).
  - apply (reach_event Sample.chose_png).
    apply (reach_event Sample.mounted).
    apply (reach_event (Sample.client initial [] Sample.always_ok) Mount).
    apply reach_initial.
  - vm_compute. left. reflexivity.
Defined.

(** X22.  No handler of the component completes by an exception, whatever
    becomes of its requests: the promises that the event handlers drop never
    reject. *)
Theorem handlers_never_throw (render : State) (id : string) (p : Proc State) :
  eval loadQRCodes p = Normal tt
  /\ eval (uploadQRCode render) p = Normal tt
  /\ eval (deleteQRCode id) p = Normal tt
  /\ eval (toggleActive id) p = Normal tt.
Proof.
  split; [apply loadQRCodes_never_throws|].
  split; [apply uploadQRCode_every_path|].
  split; [apply deleteQRCode_every_path | apply toggleActive_every_path].
Qed.

(** X23.  The component keeps to its own data: handling an event never
    changes table [hero_images], and every request it sends is an upload to
    bucket [qr-codes] or an operation on table [qr_codes]. *)
Theorem component_keeps_to_qr_codes (render : State) (ev : Event) (p : Proc State) :
  let p' := exec (dispatch render ev) p in
  hero_images (world p') = hero_images (world p)
  /\ Forall about_qr_codes (sent_since p p').
Proof.
  cbv zeta. destruct (dispatch_sends render ev p) as (Hh & new & Hlog & Hq & _).
  split; [exact Hh|]. unfold sent_since. now rewrite Hlog, skipn_sent.
Qed.

(** X24.  The upload button and the handler agree: in a render where the
    button is enabled, the handler passes its own check, and the first thing
    it sends is the upload of the selected file to bucket [qr-codes]. *)
Theorem enabled_upload_button_passes_check (render : State) (p : Proc State) :
  Markup.upload_disabled render = false ->
  exists f key rest,
    selectedFile render = Some f
    /\ sent_since p (exec (uploadQRCode render) p)
       = storage_upload "qr-codes" key f None :: rest.
Proof.
  unfold Markup.upload_disabled. intros Hen.
  apply orb_false_iff in Hen. destruct Hen as [Hen Hname].
  apply orb_false_iff in Hen. destruct Hen as [_ Hsel].
  apply negb_false_iff in Hname.
  destruct (selectedFile render) as [f|] eqn:Hf; [|discriminate].
  destruct (uploadQRCode_every_path render p)
    as (_ & _ & _ & new & Hlog & _ & _ & Hfirst).
  rewrite Hf in Hfirst.
  destruct (Hfirst f eq_refl Hname) as (key & rest & ->).
  exists f, key, rest. split; [reflexivity|].
  unfold sent_since. now rewrite Hlog, skipn_sent.
Qed.

Lemma enabled_upload_button_passes_check_witness :
  exists f key rest,
    selectedFile Sample.ready = Some f
    /\ sent_since (Sample.client Sample.ready [] Sample.always_ok)
                  (exec (uploadQRCode Sample.ready)
                        (Sample.client Sample.ready [] Sample.always_ok))
       = storage_upload "qr-codes" key f None :: rest.
Proof.
  apply (enabled_upload_button_passes_check Sample.ready
           (Sample.client Sample.ready [] Sample.always_ok)).
  reflexivity.
Defined.

End ManagerPaths.

(** ** The download helper *)

Section DownloadHelper.
Import Download.

Lemma without_fresh (n : nat) (l : list nat) :
  Forall (fun m => m < n) l -> without n l = l.
Proof.
  unfold without. induction 1 as [| m l Hm Hl IH]; cbn; [reflexivity|].
  destruct (Nat.eqb_spec m n); [lia|]. cbn. now rewrite IH.
Qed.

Lemma without_last (n : nat) (l : list nat) :
  Forall (fun m => m < n) l -> without n (l ++ [n]) = l.
Proof.
  intros H. unfold without. rewrite filter_app. cbn. rewrite Nat.eqb_refl. cbn.
  rewrite app_nil_r. now apply without_fresh.
Qed.

(** X25.  The download helper leaves the document as it found it: the
    anchor it appends to the body is removed again, so the children of the
    body are the same afterwards; exactly one anchor is clicked, whose
    address is the image URL and whose suggested file name is the name of
    the QR code followed by [.png], whatever the type of the stored image;
    and the helper does not throw. *)
Theorem downloadQRCode_leaves_document (imageUrl name : string) (d : Document) :
  well_formed d ->
  let d' := exec (downloadQRCode imageUrl name) d in
  eval (downloadQRCode imageUrl name) d = Normal tt
  /\ body d' = body d
  /\ clicked d'
     = (clicked d
        ++ [{| node := created d; href := imageUrl; download := name ++ ".png" |}])%list
  /\ well_formed d'.
Proof.
  intros Hwf. cbv zeta.
  unfold eval, exec, downloadQRCode, bind, createElement_a, appendChild, click,
    removeChild.
  cbn [fst snd node href download body created clicked].
  rewrite (without_fresh _ _ Hwf).
  assert (Hin : existsb (Nat.eqb (created d)) (body d ++ [created d]) = true).
  { rewrite existsb_app. cbn. rewrite Nat.eqb_refl. cbn. apply orb_true_r. }
  rewrite Hin. cbn [fst snd body created clicked].
  rewrite (without_last _ _ Hwf). repeat split.
  unfold well_formed in *. cbn [body created].
  eapply Forall_impl; [|exact Hwf]. cbn. lia.
Qed.

Lemma downloadQRCode_leaves_document_witness :
  body (exec (downloadQRCode "https://example.supabase.co/storage/v1/object/public/qr-codes/1.jpg"
                "Payment QR") Scenario.page)
  = [0; 1; 2]
  /\ clicked (exec (downloadQRCode "https://example.supabase.co/storage/v1/object/public/qr-codes/1.jpg"
                      "Payment QR") Scenario.page)
     = [{| node := 3;
           href := "https://example.supabase.co/storage/v1/object/public/qr-codes/1.jpg";
           download := "Payment QR.png" |}].
Proof.
  destruct (downloadQRCode_leaves_document
              "https://example.supabase.co/storage/v1/object/public/qr-codes/1.jpg"
              "Payment QR" Scenario.page) as (_ & Hb & Hc & _).
  - repeat constructor.
  - split; [exact Hb | exact Hc].
Defined.

End DownloadHelper.

(** ** The upload handler, two more paths *)

Section UploadMore.
Import Supabase HeroImages.

Lemma POST_storage_rejects_witness :
  eval (POST Sample.upload_request) (Sample.server Scenario.first_rejects)
  = Normal {| status := 500; body := error_body "Internal server error" |}.
Proof.
  refine (proj1 (POST_storage_rejects Sample.upload_request
           [("title", EString "Summer"); ("file", EFile Sample.png);
            ("display_order", EString "3")]
           Sample.png "TypeError: Failed to fetch"
           (Sample.server Scenario.first_rejects) _ _ _));
    reflexivity.
Defined.

(** X27.  A display order written as the decimal notation of an integer
    comes out, in the row sent for insertion, as the double-precision number
    nearest to that integer: as the integer itself when its magnitude is at
    most 2^53 (zero included, which the fallback maps to itself). *)
Theorem POST_display_order_round_trip
    (request : NextRequest) (formData : FormData) (z : Z) (p : Proc unit)
    (row : HeroImage.insert) :
  form request = Some formData ->
  get formData "display_order" = Some (EString (JS.number_toString z)) ->
  In (insert_hero_images row) (sent_since p (exec (POST request) p)) ->
  Contract.nearest_double z (HeroImage.i_display_order row)
  /\ ((Z.abs z <= 2 ^ 53)%Z -> HeroImage.i_display_order row = JS.Finite z).
Proof.
  intros Hform Hfield. revert row.
  post_paths request p; intros row Hin; cbn [In] in Hin;
    try contradiction;
    try (destruct Hin as [Hin | []]; discriminate);
    (destruct Hin as [Hin | [Hin | []]]; [discriminate|];
     inversion Hin; subst; clear Hin;
     cbn [HeroImage.i_display_order];
     assert (fd0 = formData) by congruence; subst fd0;
     rewrite display_order_refines; unfold Contract.display_order;
     rewrite (integer_or_zero_of_decimal _ z Hfield);
     split; [apply Number_value_nearest | apply Number_value_safe]).
Qed.

Lemma POST_display_order_round_trip_witness :
  Contract.nearest_double 3 (HeroImage.i_display_order Sample.sent_row)
  /\ ((Z.abs 3 <= 2 ^ 53)%Z -> HeroImage.i_display_order Sample.sent_row = JS.Finite 3).
Proof.
  apply (POST_display_order_round_trip Sample.upload_request
           [("title", EString "Summer"); ("file", EFile Sample.png);
            ("display_order", EString "3")]
           3 (Sample.server Sample.always_ok) Sample.sent_row).
  - reflexivity.
  - reflexivity.
  - vm_compute. right. left. reflexivity.
Defined.

End UploadMore.
